(** * freeappractice: question cache, blob store and progress ledger

    A shallow embedding of the server-side JavaScript of the repository:

    - [JS], [Float64] : truthiness and trimming of strings, and the
                   arithmetic of JavaScript Numbers used by the mastery
                   computation of [POST /api/auth/record-attempt];
    - [Ledger]   : the record-attempt route of [routes/api/auth.js] over the
                   [User] model of [models/User.js];
    - [Profiles] : [selectModelForClass] of [services/aiService.js];
    - [Cache]    : [generateAPQuestion] (aiService), the question storage
                   service (S3) and the question cache service (MongoDB
                   [Question] collection), first as the functions of the source
                   run to completion, then as asynchronous tasks that
                   interleave at their [await] points;
    - [JSArray]  : [sort] with a comparator on a numeric field, and [slice];
    - [CacheAdmin], [Storage] : the remaining functions of the cache service
                   and of the question storage service;
    - [RateLimit] : the question route and its per-client limiter;
    - [Account]  : the history, bookmark and statistics routes.

    Externals (the model provider, S3, MongoDB) are not computed: the outcome
    of each external call is an argument of the operation that performs it. *)

From stdpp Require Import gmap strings list fin_maps sorting pretty.
From Stdlib Require Import Ascii ZArith QArith Qround Qabs Qpower Lia Lqa Floats Uint63.

Close Scope Q_scope.

(* ===================================================================== *)
(** * JavaScript values *)
(* ===================================================================== *)

Module JS.

(** Truthiness of a string-valued field: a field that is missing, null or
    the empty string is falsy, and is the empty string in the model. *)
Definition falsy (s : string) : bool := bool_decide (s = ""%string).

(** [String.prototype.trim].  A string is the sequence of the bytes of its
    UTF-8 encoding; these are the encodings of the white space and line
    terminator code points of the language: U+0009 to U+000D, U+0020, U+00A0,
    U+1680, U+2000 to U+200A, U+2028, U+2029, U+202F, U+205F, U+3000 and
    U+FEFF. *)
Definition whiteSpace : list (list ascii) :=
  map (map ascii_of_nat)
      [[9]; [10]; [11]; [12]; [13]; [32];
       [194; 160]; [225; 154; 128];
       [226; 128; 128]; [226; 128; 129]; [226; 128; 130]; [226; 128; 131];
       [226; 128; 132]; [226; 128; 133]; [226; 128; 134]; [226; 128; 135];
       [226; 128; 136]; [226; 128; 137]; [226; 128; 138];
       [226; 128; 168]; [226; 128; 169]; [226; 128; 175];
       [226; 129; 159]; [227; 128; 128]; [239; 187; 191]].

Fixpoint dropPrefix (p s : list ascii) : option (list ascii) :=
  match p, s with
  | [], _ => Some s
  | _ :: _, [] => None
  | a :: p', b :: s' => if bool_decide (a = b) then dropPrefix p' s' else None
  end.

Fixpoint dropOneOf (prefixes : list (list ascii)) (s : list ascii)
  : option (list ascii) :=
  match prefixes with
  | [] => None
  | p :: rest =>
      match dropPrefix p s with
      | Some s' => Some s'
      | None => dropOneOf rest s
      end
  end.

(** Drops prefixes as long as there is one; [fuel] bounds the number of
    rounds and the length of [s] is enough. *)
Fixpoint dropWhile (prefixes : list (list ascii)) (fuel : nat) (s : list ascii)
  : list ascii :=
  match fuel with
  | O => s
  | S fuel' =>
      match dropOneOf prefixes s with
      | Some s' => dropWhile prefixes fuel' s'
      | None => s
      end
  end.

Definition trim (s : string) : string :=
  let chars := String.list_ascii_of_string s in
  let fromStart := dropWhile whiteSpace (length chars) chars in
  let fromEnd :=
    dropWhile (map (@reverse ascii) whiteSpace) (length fromStart)
              (reverse fromStart) in
  String.string_of_list_ascii (reverse fromEnd).

End JS.

Module Float64.
Local Open Scope Q_scope.

(** A finite Number is an IEEE 754 binary64 value; it is modelled by the
    rational it denotes.  [/] and [*] return the exact result rounded to the
    nearest binary64 value, ties to the even significand.  Infinities and NaN
    are outside the model: the route divides by a counter it has just
    incremented, and no value here leaves the finite range. *)

Definition emin : Z := (-1074)%Z.

(** [ilog2 x] is the integer part of the binary logarithm of [x > 0]. *)
Definition ilog2 (x : Q) : Z :=
  let k := (Z.log2 (Qnum x) - Z.log2 (Zpos (Qden x)))%Z in
  if Qle_bool (2 ^ k) x then k else (k - 1)%Z.

Definition round_half_even (x : Q) : Z :=
  let f := Qfloor x in
  match Qcompare (x - inject_Z f) (1 # 2) with
  | Lt => f
  | Gt => (f + 1)%Z
  | Eq => if Z.even f then f else (f + 1)%Z
  end.

(** Exponent of the unit in the last place of the binary64 format at [x]:
    53 significant bits, subnormals below [2 ^ -1022]. *)
Definition ulp_exponent (x : Q) : Z := Z.max (ilog2 (Qabs x) - 52) emin.

(** Rounding of an exact result to binary64. *)
Definition fl (x : Q) : Q :=
  if Qeq_bool x 0 then 0
  else
    let e := ulp_exponent x in
    let m := round_half_even (Qabs x / 2 ^ e) in
    Qred ((if Qle_bool 0 x then 1 else -1) * inject_Z m * 2 ^ e).

Definition fdiv (x y : Q) : Q := fl (x / y).
Definition fmul (x y : Q) : Q := fl (x * y).

(** [Math.round]: the closest integer, ties towards +infinity. *)
Definition Math_round (x : Q) : Z := Qfloor (x + (1 # 2)).

(** The same product on the primitive binary64 floats of the kernel, used
    to check the rational model against hardware arithmetic. *)
Definition SF2Q (s : spec_float) : option Q :=
  match s with
  | S754_zero _ => Some 0
  | S754_finite sg m e =>
      Some (Qred ((if sg then -1 else 1) * inject_Z (Zpos m) * 2 ^ e))
  | _ => None
  end.

Definition prim_of_Z (n : Z) : float := PrimFloat.of_uint63 (Uint63.of_Z n).

Definition prim_percentage (c t : Z) : option Q :=
  SF2Q (Prim2SF (PrimFloat.mul (PrimFloat.div (prim_of_Z c) (prim_of_Z t))
                               (prim_of_Z 100))).

Definition agrees_with_prim (c t : Z) : bool :=
  match prim_percentage c t with
  | Some q => Qeq_bool q (fmul (fdiv (inject_Z c) (inject_Z t)) 100)
  | None => false
  end.

End Float64.

(* ===================================================================== *)
(** * The progress ledger: POST /api/auth/record-attempt *)
(* ===================================================================== *)

Module Ledger.
Local Open Scope Z_scope.

(** The user document is a hydrated Mongoose document: [user.progress] and
    [user.questionHistory] are document arrays.  An element [find] returns is
    the stored subdocument, and assignments to it are assignments to the
    array.  [push] casts its argument into a new subdocument: the array
    receives a copy of the object as it is at that moment, with the setters of
    the schema ([trim]) applied, and later assignments to the object do not
    reach the array.  The validators of the schema (required, enum, min, max)
    run inside [user.save()], whose outcome is an argument of the
    operation. *)

(** [progressSchema] of models/User.js.  Counters are Numbers holding
    integers; [++] is exact on them below [2 ^ 53], which no stored history
    reaches, so they are integers here. *)
Record ProgressEntry := mkProgress {
  apClass : string;
  unit : string;
  completed : bool;
  mastery : Z;
  totalAttempts : Z;
  correctAttempts : Z;
  lastAttemptAt : option Z
}.

(** [questionAttemptSchema] of models/User.js. *)
Record QuestionAttempt := mkAttempt {
  questionId : string;
  attemptClass : string;
  attemptUnit : string;
  selectedAnswer : string;
  wasCorrect : bool;
  timeTakenMs : Z;
  attemptedAt : Z
}.

(** The fields of [userSchema] the route touches. *)
Record User := mkUser {
  progress : list ProgressEntry;
  questionHistory : list QuestionAttempt
}.

(** A user as [new User(...)] leaves it: both arrays default to []. *)
Definition newUser : User := mkUser [] [].

(** [req.body].  A string field that is missing, null or empty is falsy and
    is the empty string here; [bodyWasCorrect] is [None] when the field is not
    a boolean; [bodyTimeTakenMs] is [None] when it is missing. *)
Record Body := mkBody {
  bodyQuestionId : string;
  bodyApClass : string;
  bodyUnit : string;
  bodySelectedAnswer : string;
  bodyWasCorrect : option bool;
  bodyTimeTakenMs : option Z
}.

Inductive Response :=
| BadRequest (error : string)
| NotFound (error : string)
| ServerError (error : string)
| Recorded (message : string) (qid : string) (newMastery : Z) (newTotal : Z).

(** [Math.round((correctAttempts / totalAttempts) * 100)] *)
Definition computeMastery (correct total : Z) : Z :=
  Float64.Math_round
    (Float64.fmul (Float64.fdiv (inject_Z correct) (inject_Z total)) 100%Q).

(** [user.progress.find(p => p.apClass === apClass && p.unit === unit)]:
    the position of the first match.  The entry found is the subdocument
    itself, so the later assignments write through to position [i].  The
    stored class and unit are trimmed, the ones of the request are not. *)
Fixpoint findProgress (cls un : string) (l : list ProgressEntry) : option nat :=
  match l with
  | [] => None
  | p :: rest =>
      if bool_decide (apClass p = cls) && bool_decide (unit p = un) then Some 0%nat
      else option_map S (findProgress cls un rest)
  end.

Definition freshProgress (cls un : string) : ProgressEntry :=
  mkProgress cls un false 0 0 0 None.

(** The counter updates of the route on the entry [progressEntry] refers to. *)
Definition bump (correct : bool) (now : Z) (p : ProgressEntry) : ProgressEntry :=
  let total' := totalAttempts p + 1 in
  let correct' := if correct then correctAttempts p + 1 else correctAttempts p in
  mkProgress (apClass p) (unit p) (completed p)
             (computeMastery correct' total') total' correct' (Some now).

(** The body of the route between [User.findById] and [user.save()]: returns
    the modified document and the entry the response reads.

    The attempt pushed to the history is cast at once.  When the key has a
    progress entry, [progressEntry] is that subdocument and the counters are
    updated in place.  When it has none, [progressEntry] is a new plain
    object; [user.progress.push(progressEntry)] stores a cast copy of it, still
    with counters 0, and the increments that follow change the plain object
    only, which the response then reads. *)
Definition applyAttempt (b : Body) (correct : bool) (now : Z) (u : User)
  : User * ProgressEntry :=
  let history := questionHistory u ++
    [mkAttempt (bodyQuestionId b) (JS.trim (bodyApClass b)) (JS.trim (bodyUnit b))
               (bodySelectedAnswer b) correct
               (default 0 (bodyTimeTakenMs b)) now] in
  match findProgress (bodyApClass b) (bodyUnit b) (progress u) with
  | Some i =>
      let progressEntry :=
        bump correct now
             (default (freshProgress (bodyApClass b) (bodyUnit b))
                      (progress u !! i)) in
      (mkUser (<[i := progressEntry]> (progress u)) history, progressEntry)
  | None =>
      let stored :=
        freshProgress (JS.trim (bodyApClass b)) (JS.trim (bodyUnit b)) in
      let progressEntry :=
        bump correct now (freshProgress (bodyApClass b) (bodyUnit b)) in
      (mkUser (progress u ++ [stored]) history, progressEntry)
  end.

(** Outcome of the two database calls of one request. *)
Record DbOutcome := mkDb { findOk : bool; saveOk : bool }.

Definition recordAttempt (db : DbOutcome) (now : Z) (userId : string) (b : Body)
    (users : gmap string User) : Response * gmap string User :=
  if JS.falsy (bodyApClass b) || JS.falsy (bodyUnit b)
     || JS.falsy (bodySelectedAnswer b)
     || negb (bool_decide (is_Some (bodyWasCorrect b)))
  then (BadRequest "Missing required fields: apClass, unit, selectedAnswer, wasCorrect", users)
  else if JS.falsy (bodyQuestionId b)
  then (BadRequest "questionId is required (questions are auto-saved during generation)", users)
  else if negb (findOk db) then (ServerError "Failed to record attempt", users)
  else
    match users !! userId with
    | None => (NotFound "User not found", users)
    | Some u =>
        let '(u', entry) := applyAttempt b (default false (bodyWasCorrect b)) now u in
        if saveOk db
        then (Recorded "Attempt recorded successfully" (bodyQuestionId b)
                       (mastery entry) (totalAttempts entry),
              <[userId := u']> users)
        else (ServerError "Failed to record attempt", users)
    end.

(** Replaying a list of answers of one user to one (class, unit) through the
    route, collecting the mastery of each response. *)
Definition attemptBody (cls un : string) (correct : bool) : Body :=
  mkBody "q" cls un "A" (Some correct) None.

Fixpoint replay (userId cls un : string) (answers : list bool)
    (users : gmap string User) : list Z * gmap string User :=
  match answers with
  | [] => ([], users)
  | a :: rest =>
      let '(r, users') :=
        recordAttempt (mkDb true true) 0 userId (attemptBody cls un a) users in
      let '(ms, final) := replay userId cls un rest users' in
      (match r with Recorded _ _ m _ => m :: ms | _ => ms end, final)
  end.

(** The formula of the specification, on exact rationals: the integer
    closest to [100 * correct / total], ties upwards. *)
Definition specMastery (correct total : Z) : Z :=
  Qfloor (inject_Z (100 * correct) / inject_Z total + (1 # 2))%Q.

(** The states the ledger can be in: users are created with empty arrays
    and afterwards only the route writes them. *)
Inductive reachable : gmap string User -> Prop :=
| reach_empty : reachable ∅
| reach_register users userId :
    reachable users -> users !! userId = None ->
    reachable (<[userId := newUser]> users)
| reach_attempt users db now userId b :
    reachable users ->
    reachable (recordAttempt db now userId b users).2.



End Ledger.

(* ===================================================================== *)
(** * Model selection: selectModelForClass (services/aiService.js) *)
(* ===================================================================== *)

Module Profiles.
Local Open Scope string_scope.

(** [toLowerCase] on the ASCII letters; other characters are left as they
    are (no keyword below contains a letter with a non-ASCII capital). *)
Definition lowerChar (c : ascii) : ascii :=
  let n := nat_of_ascii c in
  if (65 <=? n)%nat && (n <=? 90)%nat then ascii_of_nat (n + 32) else c.

Fixpoint toLowerCase (s : string) : string :=
  match s with
  | EmptyString => EmptyString
  | String c rest => String (lowerChar c) (toLowerCase rest)
  end.

Fixpoint startsWith (s k : string) {struct k} : bool :=
  match k, s with
  | EmptyString, _ => true
  | String _ _, EmptyString => false
  | String a k', String b s' => bool_decide (a = b) && startsWith s' k'
  end.

(** [s.includes(k)] *)
Fixpoint includes (s k : string) : bool :=
  startsWith s k ||
  match s with
  | EmptyString => false
  | String _ rest => includes rest k
  end.

Definition historyKeywords : list string :=
  ["history"; "government"; "economics"; "psychology"; "sociology";
   "human geography"; "world studies"].

Definition englishKeywords : list string := ["english"; "literature"].

(** [keywords.some(keyword => normalizedClass.includes(keyword.toLowerCase()))] *)
Definition matchesKeyword (normalizedClass : string) (keywords : list string) : bool :=
  existsb (fun keyword => includes normalizedClass (toLowerCase keyword)) keywords.

(** [className] is [None] for null or undefined: [(className || '')]. *)
Definition selectModelForClass (className : option string) : string :=
  let normalizedClass := toLowerCase (default "" className) in
  if matchesKeyword normalizedClass historyKeywords
     || matchesKeyword normalizedClass englishKeywords
     || includes normalizedClass "economics"
     || includes normalizedClass "computer science principles"
  then "gpt-4.1-mini"
  else "gpt-5-mini".

(** The specification's reading: the first profile is for the humanities
    and social-science subjects, which the source names by its two keyword
    tables. *)
Definition humanitiesOrSocialScience (className : option string) : bool :=
  let normalizedClass := toLowerCase (default "" className) in
  matchesKeyword normalizedClass historyKeywords
  || matchesKeyword normalizedClass englishKeywords.

(** The subjects sent to the first model: the two keyword tables and the
    two literals of the condition. *)
Definition firstProfileKeywords : list string :=
  historyKeywords ++ englishKeywords ++
  ["economics"; "computer science principles"].

(** [k] occurs in [s]. *)
Definition occursIn (k s : string) : Prop :=
  exists before after, s = before +:+ k +:+ after.

End Profiles.

(* ===================================================================== *)
(** * Question generation, blob store and question cache *)
(* ===================================================================== *)

Module Cache.

Inductive Letter := A | B | C | D.

(** The [APQuestion] schema of aiService.js: what the provider returns. *)
Record QuestionData := mkQuestion {
  question : string;
  optionA : string;
  optionB : string;
  optionC : string;
  optionD : string;
  correctAnswer : Letter;
  explanation : string
}.

(** Identifiers handed out by the two stores.  A blob id is a
    [crypto.randomUUID()] (36 characters), a cache document id is the
    [toString()] of a MongoDB ObjectId (24 hexadecimal digits): the two
    never coincide.  Each store draws from its own supply. *)
Inductive QuestionId := Uuid (n : nat) | ObjectId (n : nat).

#[global] Instance QuestionId_eq_dec : EqDecision QuestionId.
Proof. solve_decision. Defined.

#[global] Instance QuestionId_countable : Countable QuestionId.
Proof.
  refine (inj_countable'
            (fun i => match i with Uuid n => inl n | ObjectId n => inr n end)
            (fun s => match s with inl n => Uuid n | inr n => ObjectId n end) _).
  by intros [].
Defined.

(** The object written at [questions/<id>.json]:
    [{...parsedQuestion, apClass: className, unit: unit || 'General'}]. *)
Record Blob := mkBlob {
  blobQuestion : QuestionData;
  blobClass : string;
  blobUnit : string
}.

(** [questionSchema]: a document of the MongoDB [Question] collection
    (without the two timestamps the schema option adds). *)
Record CacheDoc := mkDoc {
  doc_id : QuestionId;
  docClass : string;
  docUnit : string;
  docQuestion : string;
  docOptionA : string;
  docOptionB : string;
  docOptionC : string;
  docOptionD : string;
  docCorrectAnswer : Letter;
  docExplanation : string
}.

(** What has happened at the external boundaries, oldest first. *)
Inductive Effect :=
| ProviderReturned (q : QuestionData)
| BlobWritten (id : QuestionId) (b : Blob)
| BlobWriteFailed (b : Blob)
| CacheWritten (id : QuestionId) (className unit : string) (q : QuestionData).

Record World := mkWorld {
  questions : list CacheDoc;            (* the Question collection *)
  bucket : gmap QuestionId Blob;        (* the objects under questions/ *)
  nextObjectId : nat;
  nextUuid : nat;
  immediates : list (string * string);  (* setImmediate callbacks not yet run *)
  effects : list Effect
}.

Definition emptyWorld : World := mkWorld [] ∅ 0 0 [] [].

Definition setQuestions (docs : list CacheDoc) (w : World) : World :=
  mkWorld docs (bucket w) (nextObjectId w) (nextUuid w) (immediates w) (effects w).
Definition setBucket (b : gmap QuestionId Blob) (w : World) : World :=
  mkWorld (questions w) b (nextObjectId w) (nextUuid w) (immediates w) (effects w).
Definition setNextObjectId (n : nat) (w : World) : World :=
  mkWorld (questions w) (bucket w) n (nextUuid w) (immediates w) (effects w).
Definition setNextUuid (n : nat) (w : World) : World :=
  mkWorld (questions w) (bucket w) (nextObjectId w) n (immediates w) (effects w).
Definition setImmediates (l : list (string * string)) (w : World) : World :=
  mkWorld (questions w) (bucket w) (nextObjectId w) (nextUuid w) l (effects w).
Definition record (e : Effect) (w : World) : World :=
  mkWorld (questions w) (bucket w) (nextObjectId w) (nextUuid w) (immediates w)
          (effects w ++ [e]).

(** Thrown values, by the component that throws. *)
Inductive Error :=
| GenerationError (message : string)
| StorageError (message : string)
| DatabaseError (message : string)
| NotFoundError (message : string).

(** An async function: it runs on the world and either resolves or rejects;
    what it did before rejecting stays done. *)
Definition M (T : Type) : Type := World -> (Error + T) * World.

Definition ret {T} (v : T) : M T := fun w => (inr v, w).
Definition throw {T} (e : Error) : M T := fun w => (inl e, w).
Definition bind {T U} (m : M T) (k : T -> M U) : M U :=
  fun w => match m w with
           | (inl e, w') => (inl e, w')
           | (inr v, w') => k v w'
           end.
Definition tryCatch {T} (m : M T) (handler : Error -> M T) : M T :=
  fun w => match m w with
           | (inl e, w') => handler e w'
           | (inr v, w') => (inr v, w')
           end.
Definition modify (f : World -> World) : M ()%type := fun w => (inr (), f w).
Definition get {T} (f : World -> T) : M T := fun w => (inr (f w), w).

Notation "x <- m ;; k" := (bind m (fun x => k))
  (at level 100, m at next level, right associativity).
Notation "m ;;; k" := (bind m (fun _ => k))
  (at level 100, right associativity).

(** The outcome of every external call one operation can make. *)
Inductive ProviderOutcome :=
| Parsed (q : QuestionData)      (* [message.parsed] *)
| Failed (message : string).     (* no key, provider error, refusal, no parse *)

Record Outcomes := mkOutcomes {
  connectOk : bool;              (* ensureDbConnection *)
  findOk : bool;                 (* Question.findOne *)
  provider : ProviderOutcome;    (* client.chat.completions.parse *)
  putOk : bool;                  (* s3.send(PutObjectCommand) *)
  upsertOk : bool                (* Question.findOneAndUpdate *)
}.

(** ** s3Service.js *)

Definition putObject (ok : bool) (key : QuestionId) (body : Blob) : M ()%type :=
  if ok then modify (fun w => record (BlobWritten key body)
                                (setBucket (<[key := body]> (bucket w)) w))
  else (modify (record (BlobWriteFailed body)) ;;;
        throw (StorageError "PutObject failed")).

Definition getObjectStream (ok : bool) (key : QuestionId) : M Blob :=
  if ok then
    b <- get (fun w => bucket w !! key) ;;
    match b with
    | Some body => ret body
    | None => throw (StorageError "NoSuchKey")
    end
  else throw (StorageError "GetObject failed").

(** ** questionStorageService.js *)

(** [generateQuestionId]: [crypto.randomUUID()] *)
Definition generateQuestionId : M QuestionId :=
  n <- get nextUuid ;;
  modify (setNextUuid (S n)) ;;;
  ret (Uuid n).

(** Modelled from the spec: [saveQuestionToS3], whose documentation comment
    is in questionStorageService.js but whose body is not.  Following the
    comment (takes the full question data, returns the question id, which is
    the S3 key) and the put contract of the specification: the payload is
    written under a fresh id at [questions/<id>.json], the path
    [getQuestionFromS3] reads; a failed write is a storage error. *)
Definition saveQuestionToS3 (ok : bool) (questionData : Blob) : M QuestionId :=
  questionId <- generateQuestionId ;;
  putObject ok questionId questionData ;;;
  ret questionId.

Definition getQuestionFromS3 (ok : bool) (questionId : QuestionId) : M Blob :=
  tryCatch (getObjectStream ok questionId)
           (fun _ => throw (NotFoundError "Question not found in S3")).

(** ** aiService.js *)

Record Generated := mkGenerated {
  genAnswer : QuestionData;
  genProvider : string;
  genModel : string;
  genQuestionId : option QuestionId    (* absent when the auto-save failed *)
}.

Definition generateAPQuestion (o : Outcomes) (className unit : string)
  : M Generated :=
  if JS.falsy className then throw (GenerationError "className is required")
  else
    let model := Profiles.selectModelForClass (Some className) in
    match provider o with
    | Failed message => throw (GenerationError message)
    | Parsed parsedQuestion =>
        modify (record (ProviderReturned parsedQuestion)) ;;;
        tryCatch
          (questionId <- saveQuestionToS3 (putOk o)
                           (mkBlob parsedQuestion className
                                   (if JS.falsy unit then "General" else unit)) ;;
           ret (mkGenerated parsedQuestion "openai" model (Some questionId)))
          (fun s3Error => ret (mkGenerated parsedQuestion "openai" model None))
    end.

(** ** The question cache service *)

Record Served := mkServed {
  answer : QuestionData;
  servedProvider : string;
  servedModel : string;
  cached : bool;
  questionId : QuestionId     (* [_id.toString()] of the cache document *)
}.

Definition ensureDbConnection (ok : bool) : M ()%type :=
  if ok then ret () else throw (DatabaseError "connection failed").

Definition matches (className unit : string) (d : CacheDoc) : bool :=
  bool_decide (docClass d = className) && bool_decide (docUnit d = unit).

(** [Question.findOne({ apClass: className, unit: unit })] *)
Definition findOne (ok : bool) (className unit : string) : M (option CacheDoc) :=
  if ok then get (fun w => List.find (matches className unit) (questions w))
  else throw (DatabaseError "findOne failed").

(** The update document of [findOneAndUpdate] applied to a document. *)
Definition overwrite (className unit : string) (q : QuestionData) (d : CacheDoc)
  : CacheDoc :=
  mkDoc (doc_id d) className unit (question q) (optionA q) (optionB q)
        (optionC q) (optionD q) (correctAnswer q) (explanation q).

(** The document an upsert inserts when nothing matches the filter. *)
Definition newDoc (id : QuestionId) (className unit : string) (q : QuestionData)
  : CacheDoc :=
  overwrite className unit q (mkDoc id "" "" "" "" "" "" "" A "").

Fixpoint updateFirst (className unit : string) (q : QuestionData)
    (docs : list CacheDoc) : option (CacheDoc * list CacheDoc) :=
  match docs with
  | [] => None
  | d :: rest =>
      if matches className unit d
      then Some (overwrite className unit q d, overwrite className unit q d :: rest)
      else match updateFirst className unit q rest with
           | Some (d', rest') => Some (d', d :: rest')
           | None => None
           end
  end.

(** [Question.findOneAndUpdate(filter, update, { upsert: true, new: true,
    runValidators: true })].  The database runs an upsert in two phases.  It
    first looks for a document that matches the filter and, when there is
    one, updates it, which is atomic on that document.  When there is none it
    inserts a new document.  The [Question] collection has no unique index on
    (apClass, unit), so nothing keeps another write of the same key from
    coming between the two phases, and the insert is not held back by a
    document of the key that has appeared meanwhile. *)

(** The first phase: the document that matched, updated, or [None]. *)
Definition upsertUpdate (className unit : string) (q : QuestionData)
  : M (option CacheDoc) :=
  fun w =>
    match updateFirst className unit q (questions w) with
    | Some (d, docs) =>
        (inr (Some d), record (CacheWritten (doc_id d) className unit q)
                              (setQuestions docs w))
    | None => (inr None, w)
    end.

(** The second phase: the insert of a new document. *)
Definition upsertInsert (className unit : string) (q : QuestionData)
  : M CacheDoc :=
  fun w =>
    let d := newDoc (ObjectId (nextObjectId w)) className unit q in
    (inr d, record (CacheWritten (doc_id d) className unit q)
                   (setNextObjectId (S (nextObjectId w))
                      (setQuestions (questions w ++ [d]) w))).

(** The upsert when no other operation comes between its phases, as in a
    call that runs to completion on its own; a rejected validation is among
    its failures.  The interleaved execution below runs the phases as two
    steps. *)
Definition findOneAndUpdate (ok : bool) (className unit : string)
    (q : QuestionData) : M CacheDoc :=
  if ok then
    found <- upsertUpdate className unit q ;;
    match found with
    | Some d => ret d
    | None => upsertInsert className unit q
    end
  else throw (DatabaseError "findOneAndUpdate failed").

(** [result.answer] is the parsed object [generateAPQuestion] returns, so
    the [JSON.parse] branch for a string answer is not taken. *)
Definition generateAndStoreQuestion (o : Outcomes) (className unit : string)
  : M Served :=
  ensureDbConnection (connectOk o) ;;;
  result <- generateAPQuestion o className unit ;;
  let questionData := genAnswer result in
  cachedQuestion <- findOneAndUpdate (upsertOk o) className unit questionData ;;
  ret (mkServed questionData (genProvider result) (genModel result) false
                (doc_id cachedQuestion)).

(** The promise of the refresh is not awaited; both outcomes are logged
    and dropped. *)
Definition refreshQuestionBackground (o : Outcomes) (className unit : string)
  : M ()%type :=
  tryCatch (generateAndStoreQuestion o className unit ;;; ret ())
           (fun error => ret ()).

Definition docData (d : CacheDoc) : QuestionData :=
  mkQuestion (docQuestion d) (docOptionA d) (docOptionB d) (docOptionC d)
             (docOptionD d) (docCorrectAnswer d) (docExplanation d).

Definition serve (d : CacheDoc) : Served :=
  mkServed (docData d) "cache" "cached" true (doc_id d).

Definition setImmediate (className unit : string) : M ()%type :=
  modify (fun w => setImmediates (immediates w ++ [(className, unit)]) w).

Definition getCachedQuestion (o : Outcomes) (className unit : string)
  : M Served :=
  ensureDbConnection (connectOk o) ;;;
  found <- findOne (findOk o) className unit ;;
  match found with
  | Some doc =>
      setImmediate className unit ;;;
      ret (serve doc)
  | None => generateAndStoreQuestion o className unit
  end.

(** The event loop runs the oldest queued callback to completion. *)
Definition runImmediate (o : Outcomes) : M ()%type :=
  fun w =>
    match immediates w with
    | [] => (inr (), w)
    | (className, unit) :: rest =>
        refreshQuestionBackground o className unit (setImmediates rest w)
    end.

(** [clearCache]: [ensureDbConnection()], then [Question.deleteMany({})],
    whose [deletedCount] is returned; [connect] and [ok] are the outcomes of
    the two calls. *)
Definition clearCache (connect ok : bool) : M nat :=
  ensureDbConnection connect ;;;
  if ok then
    n <- get (fun w => length (questions w)) ;;
    modify (setQuestions []) ;;;
    ret n
  else throw (DatabaseError "deleteMany failed").

(** ** Asynchronous execution

    Requests and background refreshes are tasks suspended at an [await];
    between two awaits a task runs without interruption.  An action either
    starts a task or completes the awaited call of one, and carries the
    outcome of that call. *)

Inductive Owner := Foreground (request : nat) | Background.

Inductive Task :=
| AwaitFind (request : nat) (className unit : string)
| AwaitProvider (owner : Owner) (className unit : string)
| AwaitPut (owner : Owner) (className unit : string) (parsedQuestion : QuestionData)
| AwaitUpsert (owner : Owner) (className unit : string) (result : Generated)
| AwaitInsert (owner : Owner) (className unit : string) (result : Generated).

Record System := mkSystem {
  world : World;
  tasks : list Task;
  replies : list (nat * (Error + Served))
}.

Definition initial : System := mkSystem emptyWorld [] [].

Inductive Action :=
| CallGetCachedQuestion (request : nat) (className unit : string) (o : Outcomes)
| CallGenerateAndStore (request : nat) (className unit : string) (o : Outcomes)
| CallClearCache (connect ok : bool)
| RunImmediate
| Resume (i : nat) (o : Outcomes).

(** A settled promise: the route answers a request, a refresh only logs. *)
Definition settle (owner : Owner) (r : Error + Served) (w : World)
    (ts : list Task) (rs : list (nat * (Error + Served))) : System :=
  match owner with
  | Foreground request => mkSystem w ts (rs ++ [(request, r)])
  | Background => mkSystem w ts rs
  end.

Definition resume (t : Task) (o : Outcomes) (w : World) (ts : list Task)
    (rs : list (nat * (Error + Served))) : System :=
  match t with
  | AwaitFind request className unit =>
      match findOne (findOk o) className unit w with
      | (inl e, w') => settle (Foreground request) (inl e) w' ts rs
      | (inr (Some doc), w') =>
          settle (Foreground request) (inr (serve doc))
                 (setImmediate className unit w').2 ts rs
      | (inr None, w') =>
          mkSystem w' (ts ++ [AwaitProvider (Foreground request) className unit]) rs
      end
  | AwaitProvider owner className unit =>
      if JS.falsy className
      then settle owner (inl (GenerationError "className is required")) w ts rs
      else match provider o with
           | Failed message => settle owner (inl (GenerationError message)) w ts rs
           | Parsed parsedQuestion =>
               mkSystem (record (ProviderReturned parsedQuestion) w)
                        (ts ++ [AwaitPut owner className unit parsedQuestion]) rs
           end
  | AwaitPut owner className unit parsedQuestion =>
      let model := Profiles.selectModelForClass (Some className) in
      match saveQuestionToS3 (putOk o)
              (mkBlob parsedQuestion className
                      (if JS.falsy unit then "General" else unit)) w with
      | (inr questionId, w') =>
          mkSystem w' (ts ++ [AwaitUpsert owner className unit
                                (mkGenerated parsedQuestion "openai" model
                                             (Some questionId))]) rs
      | (inl s3Error, w') =>
          mkSystem w' (ts ++ [AwaitUpsert owner className unit
                                (mkGenerated parsedQuestion "openai" model None)]) rs
      end
  | AwaitUpsert owner className unit result =>
      if upsertOk o then
        match upsertUpdate className unit (genAnswer result) w with
        | (inl e, w') => settle owner (inl e) w' ts rs
        | (inr (Some cachedQuestion), w') =>
            settle owner
                   (inr (mkServed (genAnswer result) (genProvider result)
                                  (genModel result) false (doc_id cachedQuestion)))
                   w' ts rs
        | (inr None, w') =>
            mkSystem w' (ts ++ [AwaitInsert owner className unit result]) rs
        end
      else settle owner (inl (DatabaseError "findOneAndUpdate failed")) w ts rs
  | AwaitInsert owner className unit result =>
      if upsertOk o then
        match upsertInsert className unit (genAnswer result) w with
        | (inl e, w') => settle owner (inl e) w' ts rs
        | (inr cachedQuestion, w') =>
            settle owner
                   (inr (mkServed (genAnswer result) (genProvider result)
                                  (genModel result) false (doc_id cachedQuestion)))
                   w' ts rs
        end
      else settle owner (inl (DatabaseError "findOneAndUpdate failed")) w ts rs
  end.

Definition step (a : Action) (s : System) : option System :=
  match a with
  | CallGetCachedQuestion request className unit o =>
      if connectOk o
      then Some (mkSystem (world s) (tasks s ++ [AwaitFind request className unit])
                          (replies s))
      else Some (settle (Foreground request)
                        (inl (DatabaseError "connection failed"))
                        (world s) (tasks s) (replies s))
  | CallGenerateAndStore request className unit o =>
      if connectOk o
      then Some (mkSystem (world s)
                          (tasks s ++ [AwaitProvider (Foreground request) className unit])
                          (replies s))
      else Some (settle (Foreground request)
                        (inl (DatabaseError "connection failed"))
                        (world s) (tasks s) (replies s))
  | CallClearCache connect ok =>
      Some (mkSystem (clearCache connect ok (world s)).2 (tasks s) (replies s))
  | RunImmediate =>
      match immediates (world s) with
      | [] => None
      | (className, unit) :: rest =>
          Some (mkSystem (setImmediates rest (world s))
                         (tasks s ++ [AwaitProvider Background className unit])
                         (replies s))
      end
  | Resume i o =>
      match tasks s !! i with
      | None => None
      | Some t => Some (resume t o (world s) (delete i (tasks s)) (replies s))
      end
  end.

Fixpoint run (actions : list Action) (s : System) : option System :=
  match actions with
  | [] => Some s
  | a :: rest =>
      match step a s with
      | Some s' => run rest s'
      | None => None
      end
  end.

Definition reachable (s : System) : Prop :=
  exists actions, run actions initial = Some s.

(** Background refreshes of one key that are queued or running. *)
Definition isRefreshOf (className unit : string) (t : Task) : bool :=
  match t with
  | AwaitProvider Background c u
  | AwaitPut Background c u _
  | AwaitUpsert Background c u _
  | AwaitInsert Background c u _ =>
      bool_decide (c = className) && bool_decide (u = unit)
  | _ => false
  end.

Definition refreshesInFlight (className unit : string) (s : System) : nat :=
  length (filter (fun t => isRefreshOf className unit t = true) (tasks s)).

Definition key (d : CacheDoc) : string * string := (docClass d, docUnit d).

(** The question was offered to the blob store: written, or refused. *)
Definition putAttempted (q : QuestionData) (effs : list Effect) : Prop :=
  exists b, blobQuestion b = q /\
    (BlobWriteFailed b ∈ effs \/ exists id, BlobWritten id b ∈ effs).

(** What a suspended task has already done. *)
Definition taskOk (effs : list Effect) (t : Task) : Prop :=
  match t with
  | AwaitFind _ _ _ | AwaitProvider _ _ _ => True
  | AwaitPut _ _ _ q => ProviderReturned q ∈ effs
  | AwaitUpsert _ _ _ result | AwaitInsert _ _ _ result =>
      ProviderReturned (genAnswer result) ∈ effs /\
      putAttempted (genAnswer result) effs
  end.

Record Invariant (s : System) : Prop := mkInvariant {
  inv_docs : forall d, d ∈ questions (world s) ->
    ProviderReturned (docData d) ∈ effects (world s) /\
    exists n, doc_id d = ObjectId n /\ n < nextObjectId (world s);
  inv_tasks : Forall (taskOk (effects (world s))) (tasks s);
  inv_replies : forall r sv, (r, inr sv) ∈ replies s ->
    ProviderReturned (answer sv) ∈ effects (world s) /\
    exists n, questionId sv = ObjectId n;
  inv_order : forall i id c u q,
    effects (world s) !! i = Some (CacheWritten id c u q) ->
    putAttempted q (take i (effects (world s)));
  inv_blobs : forall id b, BlobWritten id b ∈ effects (world s) ->
    bucket (world s) !! id = Some b;
  inv_ids : forall id, is_Some (bucket (world s) !! id) ->
    exists n, id = Uuid n /\ n < nextUuid (world s)
}.

(** Sample data for the scenarios. *)
Definition sampleQuestion : QuestionData :=
  mkQuestion "Which organelle produces most of a cell's ATP?"
             "Ribosome" "Mitochondrion" "Golgi apparatus" "Lysosome" B
             "Oxidative phosphorylation takes place in the mitochondrion.".

Definition otherQuestion : QuestionData :=
  mkQuestion "Which molecule carries amino acids to the ribosome?"
             "mRNA" "rRNA" "tRNA" "DNA" C
             "Each tRNA is charged with one amino acid.".

Definition allOk (q : QuestionData) : Outcomes :=
  mkOutcomes true true (Parsed q) true true.

Definition putFails (q : QuestionData) : Outcomes :=
  mkOutcomes true true (Parsed q) false true.

Definition providerFails : Outcomes :=
  mkOutcomes true true (Failed "provider error") true true.

(** A cold fetch whose blob write is refused. *)
Definition coldFetchPutRefused : list Action :=
  [CallGetCachedQuestion 0 "AP Biology" "Unit 1" (putFails sampleQuestion);
   Resume 0 (putFails sampleQuestion); Resume 0 (putFails sampleQuestion);
   Resume 0 (putFails sampleQuestion); Resume 0 (putFails sampleQuestion);
   Resume 0 (putFails sampleQuestion)].

(** A cold fetch, then two hits on the same key, then the event loop
    starts both queued refreshes. *)
Definition coldFetchThenTwoHits : list Action :=
  [CallGetCachedQuestion 0 "AP Biology" "Unit 1" (allOk sampleQuestion);
   Resume 0 (allOk sampleQuestion); Resume 0 (allOk sampleQuestion);
   Resume 0 (allOk sampleQuestion); Resume 0 (allOk sampleQuestion);
   Resume 0 (allOk sampleQuestion);
   CallGetCachedQuestion 1 "AP Biology" "Unit 1" (allOk otherQuestion);
   Resume 0 (allOk otherQuestion);
   CallGetCachedQuestion 2 "AP Biology" "Unit 1" (allOk otherQuestion);
   Resume 0 (allOk otherQuestion);
   RunImmediate; RunImmediate].

(** After [coldFetchThenTwoHits], both refreshes run to completion, the
    one started second finishing first. *)
Definition twoRefreshesComplete : list Action :=
  coldFetchThenTwoHits ++
  [Resume 0 (allOk otherQuestion); Resume 0 (allOk sampleQuestion);
   Resume 0 (allOk otherQuestion); Resume 0 (allOk sampleQuestion);
   Resume 1 (allOk sampleQuestion); Resume 0 (allOk otherQuestion)].

Definition afterTwoRefreshes : System :=
  default initial (run twoRefreshesComplete initial).

Definition afterPutRefused : System :=
  default initial (run coldFetchPutRefused initial).

(** Two fetches of one key that has no document, whose tasks take turns at
    every step: both find nothing, both generate, both upserts match nothing,
    and then both insert. *)
Definition twoColdFetchesOverlap : list Action :=
  [CallGetCachedQuestion 0 "AP Biology" "Unit 1" (allOk sampleQuestion);
   CallGetCachedQuestion 1 "AP Biology" "Unit 1" (allOk otherQuestion);
   Resume 0 (allOk sampleQuestion); Resume 0 (allOk otherQuestion);
   Resume 0 (allOk sampleQuestion); Resume 0 (allOk otherQuestion);
   Resume 0 (allOk sampleQuestion); Resume 0 (allOk otherQuestion);
   Resume 0 (allOk sampleQuestion); Resume 0 (allOk otherQuestion);
   Resume 0 (allOk sampleQuestion); Resume 0 (allOk otherQuestion)].

Definition afterTwoColdFetches : System :=
  default initial (run twoColdFetchesOverlap initial).

(** The world after one cold fetch of ("AP Biology", "Unit 1"). *)
Definition populatedWorld : World :=
  (getCachedQuestion (allOk sampleQuestion) "AP Biology" "Unit 1" emptyWorld).2.

Definition sampleDoc : CacheDoc :=
  newDoc (ObjectId 0) "AP Biology" "Unit 1" sampleQuestion.

End Cache.

(* ===================================================================== *)
(** * Arrays: sort and slice *)
(* ===================================================================== *)

Module JSArray.
Local Open Scope Z_scope.

Section Sort.
Context {T : Type} (score : T -> Z).

(** [insertDesc x l] puts [x] in front of the first element whose score
    is not greater than that of [x]. *)
Fixpoint insertDesc (x : T) (l : list T) : list T :=
  match l with
  | [] => [x]
  | y :: rest =>
      if score x <? score y then y :: insertDesc x rest else x :: y :: rest
  end.

(** [array.sort((a, b) => score(b) - score(a))]: the sort of the language
    is stable, so the result is the one arrangement by decreasing score
    that keeps elements of equal score in their order. *)
Fixpoint sortDesc (l : list T) : list T :=
  match l with
  | [] => []
  | x :: rest => insertDesc x (sortDesc rest)
  end.

(** [a] may stand before [b] in an array sorted by decreasing score. *)
Definition descending (a b : T) : Prop := score b <= score a.
End Sort.

(** A Number that holds an integer, or NaN. *)
Definition IntOrNaN : Type := option Z.

Definition addNumbers (a b : IntOrNaN) : IntOrNaN :=
  match a, b with
  | Some x, Some y => Some (x + y)
  | _, _ => None
  end.

(** The index [slice] computes from an argument: NaN counts as 0, a negative
    value counts from the end, and the result is clamped to the array. *)
Definition relativeIndex (len : Z) (arg : IntOrNaN) : Z :=
  let n := default 0 arg in
  if n <? 0 then Z.max (len + n) 0 else Z.min n len.

(** [array.slice(start, end)] *)
Definition slice {T} (start finish : IntOrNaN) (l : list T) : list T :=
  let len := Z.of_nat (length l) in
  let k := relativeIndex len start in
  let final := relativeIndex len finish in
  take (Z.to_nat (Z.max (final - k) 0)) (drop (Z.to_nat k) l).

End JSArray.

(* ===================================================================== *)
(** * The question cache service: introspection *)
(* ===================================================================== *)

Module CacheAdmin.
Import Cache.

(** [Question.countDocuments(filter)] *)
Definition countDocuments (ok : bool) (filter : CacheDoc -> bool) : M nat :=
  if ok then get (fun w => length (List.filter filter (questions w)))
  else throw (DatabaseError "countDocuments failed").

(** [isCached(className, unit)] *)
Definition isCached (connect ok : bool) (className unit : string) : M bool :=
  ensureDbConnection connect ;;;
  count <- countDocuments ok (matches className unit) ;;
  ret (0 <? count)%nat.

(** One more document of class [c] in the groups of a [$group] stage. *)
Fixpoint bumpGroup (c : string) (groups : list (string * nat))
  : list (string * nat) :=
  match groups with
  | [] => [(c, 1)]
  | (c', n) :: rest =>
      if bool_decide (c' = c) then (c', S n) :: rest
      else (c', n) :: bumpGroup c rest
  end.

(** [{ $group: { _id: '$apClass', count: { $sum: 1 } } }].  The database
    leaves the order of the groups open; here it is the order in which the
    classes first occur. *)
Definition groupByClass (docs : list CacheDoc) : list (string * nat) :=
  foldl (fun groups d => bumpGroup (docClass d) groups) [] docs.

(** [Question.aggregate([{ $group ... }, { $sort: { count: -1 } }])]; groups
    of equal count stay in the order of the previous stage. *)
Definition aggregateByClass (ok : bool) : M (list (string * nat)) :=
  if ok then
    get (fun w => JSArray.sortDesc (fun g => Z.of_nat g.2) (groupByClass (questions w)))
  else throw (DatabaseError "aggregate failed").

Record CacheStats := mkStats {
  total : nat;
  byClass : list (string * nat)
}.

(** [getCacheStats()] *)
Definition getCacheStats (connect okCount okAggregate : bool) : M CacheStats :=
  ensureDbConnection connect ;;;
  total <- countDocuments okCount (fun _ => true) ;;
  byClass <- aggregateByClass okAggregate ;;
  ret (mkStats total byClass).

(** Number of documents of one class. *)
Definition classCount (c : string) (docs : list CacheDoc) : nat :=
  length (List.filter (fun d => bool_decide (docClass d = c)) docs).

(** The count the groups hold for a class. *)
Fixpoint groupCount (c : string) (groups : list (string * nat)) : option nat :=
  match groups with
  | [] => None
  | (c', n) :: rest => if bool_decide (c' = c) then Some n else groupCount c rest
  end.

End CacheAdmin.

(* ===================================================================== *)
(** * The question storage service: batch get and listing *)
(* ===================================================================== *)

Module Storage.
Import Cache.
Local Open Scope string_scope.

(** [getQuestionsFromS3(questionIds)]: every get has its own catch, which
    logs and yields null; the nulls are filtered out of the result of
    [Promise.all].  [ok i] is the outcome of the S3 call for the id at
    position [i]. *)
Fixpoint collectQuestions (ok : nat -> bool) (i : nat) (questionIds : list QuestionId)
    (w : World) : list Blob :=
  match questionIds with
  | [] => []
  | id :: rest =>
      match getQuestionFromS3 (ok i) id w with
      | (inr questionData, _) => questionData :: collectQuestions ok (S i) rest w
      | (inl err, _) => collectQuestions ok (S i) rest w
      end
  end.

Definition getQuestionsFromS3 (ok : nat -> bool) (questionIds : list QuestionId)
  : M (list Blob) :=
  fun w => (inr (collectQuestions ok 0 questionIds w), w).

(** The route [GET /api/question/:id] of routes/api/question-by-id.js,
    after the token check. *)
Inductive ByIdResponse :=
| ByIdBadRequest (error : string)
| ByIdNotFound (error details : string)
| ByIdOk (question : Blob).

Definition questionById (ok : bool) (id : option QuestionId) (w : World)
  : ByIdResponse :=
  match id with
  | None => ByIdBadRequest "Question id is required"
  | Some id =>
      match getQuestionFromS3 ok id w with
      | (inr question, _) => ByIdOk question
      | (inl (NotFoundError message), _)
      | (inl (StorageError message), _)
      | (inl (DatabaseError message), _)
      | (inl (GenerationError message), _) =>
          ByIdNotFound "Question not found" message
      end
  end.

(** ** listUserQuestions

    Object keys are strings of bytes; the two characters the pattern tests,
    [/] and [.], are single bytes that occur in no multi-byte character. *)

(** The longest prefix of [s] whose characters all differ from [c], and the
    rest. *)
Fixpoint spanNot (c : ascii) (s : string) : string * string :=
  match s with
  | EmptyString => (EmptyString, EmptyString)
  | String a rest =>
      if bool_decide (a = c) then (EmptyString, s)
      else let '(run, tail) := spanNot c rest in (String a run, tail)
  end.

(** [s] without the prefix [p], when it has it. *)
Fixpoint stripPrefix (p s : string) : option string :=
  match p, s with
  | EmptyString, _ => Some s
  | String _ _, EmptyString => None
  | String a p', String b s' =>
      if bool_decide (a = b) then stripPrefix p' s' else None
  end.

(** A match of [questions\/users\/[^/]+\/([^.]+)\.json] that starts at the
    first character of [s]: the capture.  Each of the two classes is followed
    by a character outside it, so only its longest run can match. *)
Definition matchHere (s : string) : option string :=
  s1 ← stripPrefix "questions/users/" s;
  let '(user, s2) := spanNot "/" s1 in
  if bool_decide (user = "") then None else
  s3 ← stripPrefix "/" s2;
  let '(capture, s4) := spanNot "." s3 in
  if bool_decide (capture = "") then None else
  _ ← stripPrefix ".json" s4;
  Some capture.

(** [key.match(/questions\/users\/[^/]+\/([^.]+)\.json/)]: the leftmost
    match, [match[1]]. *)
Fixpoint matchKey (s : string) : option string :=
  match matchHere s with
  | Some capture => Some capture
  | None =>
      match s with
      | EmptyString => None
      | String _ rest => matchKey rest
      end
  end.

(** [listUserQuestions(userId)]: [listing] is what [s3Service.listObjects]
    resolved to (the keys of [resp.Contents || []]), or [None] when it
    rejected, which the function turns into the empty list. *)
Definition listUserQuestions (listing : option (list string)) : list string :=
  match listing with
  | Some keys => omap matchKey keys
  | None => []
  end.

(** The key of a user's question, as the pattern expects it. *)
Definition userQuestionKey (userId questionId : string) : string :=
  "questions/users/" +:+ userId +:+ "/" +:+ questionId +:+ ".json".

(** [c] does not occur in [s]. *)
Fixpoint free (c : ascii) (s : string) : bool :=
  match s with
  | EmptyString => true
  | String a rest => negb (bool_decide (a = c)) && free c rest
  end.

End Storage.

(* ===================================================================== *)
(** * The question route and its rate limit (routes/api/question.js) *)
(* ===================================================================== *)

Module RateLimit.
Import Cache.
Local Open Scope Z_scope.

(** An entry of the map [openaiRateLimits].  Times are the integers
    [Date.now()] returns, in milliseconds; sums and differences of them are
    exact. *)
Record Limit := mkLimit { count : Z; resetTime : Z }.

Definition OPENAI_RATE_LIMIT : Z := 15.
Definition RATE_LIMIT_WINDOW : Z := 60 * 1000.

(** [Math.ceil] *)
Definition Math_ceil (x : Q) : Z := Qceiling x.

(** The object [checkOpenAIRateLimit] returns; [resetIn] and [message] are
    present on a refusal only. *)
Record Check := mkCheck {
  allowed : bool;
  remaining : Z;
  resetIn : option Z;
  message : option string
}.

Definition limitMessage (resetIn : Z) : string :=
  "OpenAI rate limit exceeded. Please wait " +:+ pretty resetIn
  +:+ " seconds before making another OpenAI request.".

(** [checkOpenAIRateLimit(ip)] at the time [now].  [userLimit.count++]
    writes to the object the map holds. *)
Definition checkOpenAIRateLimit (now : Z) (ip : string) (limits : gmap string Limit)
  : Check * gmap string Limit :=
  let reset :=
    (mkCheck true (OPENAI_RATE_LIMIT - 1) None None,
     <[ip := mkLimit 1 (now + RATE_LIMIT_WINDOW)]> limits) in
  match limits !! ip with
  | None => reset
  | Some userLimit =>
      if resetTime userLimit <? now then reset
      else if OPENAI_RATE_LIMIT <=? count userLimit then
        let resetIn :=
          Math_ceil (Float64.fdiv (inject_Z (resetTime userLimit - now)) 1000) in
        (mkCheck false 0 (Some resetIn) (Some (limitMessage resetIn)), limits)
      else
        let userLimit' := mkLimit (count userLimit + 1) (resetTime userLimit) in
        (mkCheck true (OPENAI_RATE_LIMIT - count userLimit') None None,
         <[ip := userLimit']> limits)
  end.

(** The callback of [setInterval]: entries whose window is over are
    deleted. *)
Definition cleanup (now : Z) (limits : gmap string Limit) : gmap string Limit :=
  filter (fun entry => ~ resetTime entry.2 < now) limits.

(** The checks of one client at the given times, in order. *)
Fixpoint checks (ip : string) (times : list Z) (limits : gmap string Limit)
  : list Check * gmap string Limit :=
  match times with
  | [] => ([], limits)
  | now :: rest =>
      let '(c, limits') := checkOpenAIRateLimit now ip limits in
      let '(cs, final) := checks ip rest limits' in
      (c :: cs, final)
  end.

(** What the limiter maintains for every entry, [clock] being a time no
    later than the present. *)
Definition limitsOk (clock : Z) (limits : gmap string Limit) : Prop :=
  map_Forall (fun _ entry =>
                1 <= count entry <= OPENAI_RATE_LIMIT /\
                resetTime entry <= clock + RATE_LIMIT_WINDOW) limits.

(** ** POST /api/question *)

(** [req.body] and the addresses of the request.  A string that is missing
    or empty is falsy and is the empty string here. *)
Record Request := mkRequest {
  className : string;
  unit : string;
  skipCache : bool;
  ip : string;
  remoteAddress : string
}.

Record Headers := mkHeaders {
  xRateLimitLimit : Z;
  xRateLimitRemaining : Z;
  xRateLimitReset : Z
}.

(** The JSON of a successful answer.  [resAnswer] stands for
    [JSON.stringify(result.answer)]; [resCached] and [resQuestionId] are
    absent when the result has no such field. *)
Record Answer := mkAnswer {
  resAnswer : QuestionData;
  resProvider : string;
  resModel : string;
  resCached : option bool;
  resQuestionId : option QuestionId
}.

Inductive Response :=
| BadRequest (error : string)
| TooManyRequests (error details : string) (resetIn : Z) (provider : string)
| Ok (headers : Headers) (body : Answer)
| ServerError (headers : Headers) (error details provider : string).

Definition DEFAULT_PROVIDER : string := "openai".

(** [error.message] *)
Definition errorMessage (e : Error) : string :=
  match e with
  | GenerationError m | StorageError m | DatabaseError m | NotFoundError m => m
  end.

(** [req.ip || req.connection.remoteAddress || 'unknown'] *)
Definition clientIp (req : Request) : string :=
  if JS.falsy (ip req) then
    if JS.falsy (remoteAddress req) then "unknown"%string else remoteAddress req
  else ip req.

(** The handler.  [now] is the time of the rate-limit check, [headerNow]
    the time the headers are written; [production] tells whether
    [NODE_ENV] is ['production']. *)
Definition postQuestion (production : bool) (o : Outcomes) (now headerNow : Z)
    (req : Request) (limits : gmap string Limit) (w : World)
  : Response * gmap string Limit * World :=
  if JS.falsy (className req) then
    (BadRequest "className is required", limits, w)
  else
    let '(rateLimitCheck, limits') :=
      checkOpenAIRateLimit now (clientIp req) limits in
    if negb (allowed rateLimitCheck) then
      (TooManyRequests "Rate limit exceeded"
                       (default ""%string (message rateLimitCheck))
                       (default 0 (resetIn rateLimitCheck))
                       DEFAULT_PROVIDER,
       limits', w)
    else
      let headers :=
        mkHeaders OPENAI_RATE_LIMIT (remaining rateLimitCheck)
                  (Math_ceil (Float64.fdiv (inject_Z headerNow) 1000) + 60) in
      let fail (error : Error) :=
        ServerError headers "Failed to generate question"
                    (if production then "Internal server error"%string
                     else errorMessage error)
                    DEFAULT_PROVIDER in
      if skipCache req then
        match generateAPQuestion o (className req) (unit req) w with
        | (inr result, w') =>
            (Ok headers (mkAnswer (genAnswer result) (genProvider result)
                                  (genModel result) None (genQuestionId result)),
             limits', w')
        | (inl error, w') => (fail error, limits', w')
        end
      else
        match getCachedQuestion o (className req) (unit req) w with
        | (inr result, w') =>
            (Ok headers (mkAnswer (answer result) (servedProvider result)
                                  (servedModel result) (Some (cached result))
                                  (Some (questionId result))),
             limits', w')
        | (inl error, w') => (fail error, limits', w')
        end.

End RateLimit.

(* ===================================================================== *)
(** * The account routes: history, bookmarks, statistics
      (routes/api/auth.js) *)
(* ===================================================================== *)

Module Account.
Import Ledger.
Local Open Scope Z_scope.

Definition sumZ {T} (f : T -> Z) (l : list T) : Z :=
  foldr (fun x acc => f x + acc) 0 l.

(** ** GET /api/auth/history

    [user.questionHistory.sort(...).slice(parseInt(offset),
    parseInt(offset) + parseInt(limit))]; [offset] and [limit] are the
    results of [parseInt].  The join with the blobs of the questions reads a
    field the blob writer sets and is not part of the model. *)
Definition historyPage (offset limit : JSArray.IntOrNaN)
    (history : list QuestionAttempt) : list QuestionAttempt :=
  JSArray.slice offset (JSArray.addNumbers offset limit)
                (JSArray.sortDesc attemptedAt history).

(** [total: user.questionHistory.length] *)
Definition historyTotal (history : list QuestionAttempt) : nat := length history.

(** ** POST /api/auth/bookmark *)

(** [array.indexOf(x)]: the first position of [x]; -1 is [None]. *)
Fixpoint indexOf (x : string) (l : list string) : option nat :=
  match l with
  | [] => None
  | y :: rest =>
      if bool_decide (y = x) then Some 0%nat else option_map S (indexOf x rest)
  end.

(** The toggle: [splice(index, 1)] or [push(questionId)]. *)
Definition toggle (questionId : string) (bookmarkedQuestions : list string)
  : list string :=
  match indexOf questionId bookmarkedQuestions with
  | Some index => delete index bookmarkedQuestions
  | None => bookmarkedQuestions ++ [questionId]
  end.

Inductive BookmarkResponse :=
| BookmarkBadRequest (error : string)
| BookmarkNotFound (error : string)
| BookmarkServerError (error : string)
| Bookmarked (message : string) (bookmarked : bool).

(** The route on the store of the users' [bookmarkedQuestions]; [db] holds
    the outcomes of [User.findById] and [user.save()]. *)
Definition bookmark (db : DbOutcome) (userId questionId : string)
    (users : gmap string (list string))
  : BookmarkResponse * gmap string (list string) :=
  if JS.falsy questionId then
    (BookmarkBadRequest "questionId is required", users)
  else if negb (findOk db) then
    (BookmarkServerError "Failed to bookmark question", users)
  else
    match users !! userId with
    | None => (BookmarkNotFound "User not found", users)
    | Some bookmarkedQuestions =>
        let index := indexOf questionId bookmarkedQuestions in
        if saveOk db then
          (Bookmarked (match index with
                       | Some _ => "Bookmark removed"
                       | None => "Bookmark added"
                       end)
                      (bool_decide (index = None)),
           <[userId := toggle questionId bookmarkedQuestions]> users)
        else (BookmarkServerError "Failed to bookmark question", users)
    end.

(** ** GET /api/auth/stats

    The counts and percentages of the answer.  The streak, the hours and the
    daily activity depend on the calendar of the server's time zone and are
    not part of the model. *)

Record Overview := mkOverview {
  totalQuestions : Z;
  correctAnswers : Z;
  accuracy : Z
}.

Definition overview (history : list QuestionAttempt) : Overview :=
  let totalQuestions := Z.of_nat (length history) in
  let correctAnswers := Z.of_nat (length (filter (fun q => wasCorrect q = true) history)) in
  mkOverview totalQuestions correctAnswers
             (if 0 <? totalQuestions
              then computeMastery correctAnswers totalQuestions else 0).

(** A property of the object [subjectStats]. *)
Record SubjectStats := mkSubject {
  subject : string;
  subjectTotal : Z;
  subjectCorrect : Z;
  subjectTotalTime : Z
}.

(** The names of the members of [Object.prototype]: looked up in an object
    literal they are found by inheritance, so [!subjectStats[name]] is false
    although the object has no entry of its own for the name. *)
Definition objectPrototypeMembers : list string :=
  ["constructor"; "__proto__"; "hasOwnProperty"; "isPrototypeOf";
   "propertyIsEnumerable"; "toLocaleString"; "toString"; "valueOf";
   "__defineGetter__"; "__defineSetter__"; "__lookupGetter__";
   "__lookupSetter__"]%string.

Fixpoint allDigits (s : string) : bool :=
  match s with
  | EmptyString => false
  | String a rest =>
      (Ascii.leb "0" a && Ascii.leb a "9")
      && match rest with EmptyString => true | _ => allDigits rest end
  end.

(** A class name that the object [subjectStats] holds like any other key:
    it is not the name of an inherited member, and it is not made of digits
    only (array indices are among those, and [Object.entries] lists them
    before the other keys instead of in the order of creation). *)
Definition ordinaryKey (name : string) : bool :=
  negb (bool_decide (name ∈ objectPrototypeMembers)) && negb (allDigits name).

(** One step of the [forEach] for class names that are ordinary keys: the
    entry of the class is created when absent, then counted up. *)
Fixpoint bumpSubject (q : QuestionAttempt) (stats : list SubjectStats)
  : list SubjectStats :=
  match stats with
  | [] =>
      [mkSubject (attemptClass q) 1 (if wasCorrect q then 1 else 0)
                 (timeTakenMs q)]
  | s :: rest =>
      if bool_decide (subject s = attemptClass q) then
        mkSubject (subject s) (subjectTotal s + 1)
                  (if wasCorrect q then subjectCorrect s + 1 else subjectCorrect s)
                  (subjectTotalTime s + timeTakenMs q) :: rest
      else s :: bumpSubject q rest
  end.

Definition subjectStats (history : list QuestionAttempt) : list SubjectStats :=
  foldl (fun stats q => bumpSubject q stats) [] history.

Record SubjectRow := mkRow {
  rowSubject : string;
  rowTotal : Z;
  rowCorrect : Z;
  rowAccuracy : Z;
  rowAvgTimeSeconds : Z
}.

Definition subjectRow (s : SubjectStats) : SubjectRow :=
  mkRow (subject s) (subjectTotal s) (subjectCorrect s)
        (computeMastery (subjectCorrect s) (subjectTotal s))
        (Float64.Math_round
           (Float64.fdiv (Float64.fdiv (inject_Z (subjectTotalTime s))
                                       (inject_Z (subjectTotal s))) 1000)).

(** [Object.entries(subjectStats).map(...).sort((a, b) => b.total - a.total)],
    for class names that are ordinary keys. *)
Definition subjectBreakdown (history : list QuestionAttempt) : list SubjectRow :=
  JSArray.sortDesc rowTotal (map subjectRow (subjectStats history)).

(** What the [forEach] maintains for every entry of [subjectStats]. *)
Definition subjectOk (s : SubjectStats) : Prop :=
  1 <= subjectTotal s /\ 0 <= subjectCorrect s <= subjectTotal s.


End Account.

(* ===================================================================== *)
(** * Properties *)
(* ===================================================================== *)

Module Float64Facts.
Import Float64.
Local Open Scope Q_scope.

Lemma round_half_even_cases x :
  round_half_even x = Qfloor x \/
  (round_half_even x = (Qfloor x + 1)%Z /\ (1 # 2) <= x - inject_Z (Qfloor x)).
Proof.
  unfold round_half_even.
  destruct (Qcompare (x - inject_Z (Qfloor x)) (1 # 2)) eqn:E.
  - apply Qeq_alt in E. destruct (Z.even (Qfloor x)); [by left | right].
    split; [done | rewrite E; apply Qle_refl].
  - by left.
  - right. split; [done |]. apply Qgt_alt in E. by apply Qlt_le_weak.
Qed.

Lemma round_half_even_nonneg x : 0 <= x -> (0 <= round_half_even x)%Z.
Proof.
  intros Hx.
  assert (0 <= Qfloor x)%Z as Hf.
  { change 0%Z with (Qfloor (inject_Z 0)). by apply Qfloor_resp_le. }
  destruct (round_half_even_cases x) as [-> | [-> _]]; lia.
Qed.

Lemma round_half_even_le x (n : Z) : x <= inject_Z n -> (round_half_even x <= n)%Z.
Proof.
  intros Hx.
  assert (Qfloor x <= n)%Z as Hf.
  { rewrite <- (Qfloor_Z n). by apply Qfloor_resp_le. }
  destruct (round_half_even_cases x) as [-> | [-> Hhalf]]; [done |].
  destruct (Z.eq_dec (Qfloor x) n) as [Heq | Hne]; [| lia].
  rewrite Heq in Hhalf. exfalso. lra.
Qed.

Lemma ilog2_le_diff x :
  (ilog2 x <= Z.log2 (Qnum x) - Z.log2 (Zpos (Qden x)))%Z.
Proof. unfold ilog2. destruct (Qle_bool _ _); lia. Qed.

Lemma ulp_exponent_nonpos x :
  0 < x -> x <= inject_Z (2 ^ 52) -> (ulp_exponent x <= 0)%Z.
Proof.
  intros Hpos Hle. unfold ulp_exponent.
  pose proof (ilog2_le_diff (Qabs x)) as Hk.
  destruct x as [n d]. unfold Qlt, Qle in Hpos, Hle.
  cbn [Qnum Qden Qabs inject_Z] in *.
  assert (0 < n)%Z as Hn by lia.
  rewrite Z.abs_eq in Hk |- * by lia.
  assert (Z.log2 n <= 52 + Z.log2 (Zpos d))%Z.
  { rewrite <- Z.log2_mul_pow2 by lia. apply Z.log2_le_mono. lia. }
  unfold emin. lia.
Qed.

Lemma Qpower2_nonpos e : (e <= 0)%Z -> 2 ^ e == / inject_Z (2 ^ (- e)).
Proof.
  intros He. rewrite Zpower_Qpower by lia.
  rewrite <- Qpower_opp. by rewrite Z.opp_involutive.
Qed.

Lemma fl_nonneg x : 0 <= x -> 0 <= fl x.
Proof.
  intros Hx. unfold fl. destruct (Qeq_bool x 0); [apply Qle_refl |].
  rewrite Qred_correct.
  assert (Qle_bool 0 x = true) as -> by by apply Qle_bool_iff.
  set (e := ulp_exponent x).
  assert (0 < 2 ^ e) as Hpow by (by apply Qpower_0_lt).
  assert (0 <= Qabs x / 2 ^ e) as Hy.
  { apply Qle_shift_div_l; [done |]. rewrite Qmult_0_l. apply Qabs_nonneg. }
  apply round_half_even_nonneg in Hy.
  apply Qmult_le_0_compat; [| by apply Qlt_le_weak].
  rewrite Qmult_1_l. change 0 with (inject_Z 0). by rewrite <- Zle_Qle.
Qed.

Lemma fl_le_int x (n : Z) :
  0 <= x -> x <= inject_Z n -> (n <= 2 ^ 52)%Z -> fl x <= inject_Z n.
Proof.
  intros Hx Hn Hbound. unfold fl. destruct (Qeq_bool x 0) eqn:E0.
  { lra. }
  apply Qeq_bool_neq in E0.
  assert (0 < x) as Hpos.
  { destruct (Qlt_le_dec 0 x) as [|Hle]; [done |]. destruct E0. lra. }
  rewrite Qred_correct.
  assert (Qle_bool 0 x = true) as -> by by apply Qle_bool_iff.
  assert (ulp_exponent x <= 0)%Z as He.
  { apply ulp_exponent_nonpos; [done |]. rewrite Zle_Qle in Hbound. lra. }
  set (e := ulp_exponent x) in *.
  set (P := (2 ^ (- e))%Z).
  assert (0 < P)%Z as HP by (apply Z.pow_pos_nonneg; lia).
  assert (0 < inject_Z P) as HPq.
  { change 0 with (inject_Z 0). by rewrite <- Zlt_Qlt. }
  pose proof (Qpower2_nonpos e He) as Hpow. fold P in Hpow.
  assert (Qabs x / 2 ^ e <= inject_Z (n * P)) as Hy.
  { unfold Qdiv. rewrite Hpow, Qinv_involutive, Qabs_pos by done.
    rewrite inject_Z_mult. by apply Qmult_le_compat_r; [| apply Qlt_le_weak]. }
  apply round_half_even_le in Hy.
  set (m := round_half_even _) in *.
  rewrite Hpow, Qmult_1_l. apply Qle_shift_div_r; [done |].
  rewrite <- inject_Z_mult. by rewrite <- Zle_Qle.
Qed.

Lemma Math_round_bounds x (n : Z) :
  0 <= x -> x <= inject_Z n -> (0 <= Math_round x <= n)%Z.
Proof.
  intros Hx Hn. unfold Math_round. split.
  - change 0%Z with (Qfloor 0). apply Qfloor_resp_le. lra.
  - pose proof (Qfloor_le (x + (1 # 2))) as Hf.
    assert (inject_Z (Qfloor (x + (1 # 2))) < inject_Z (n + 1)) as Hlt.
    { rewrite inject_Z_plus. change (inject_Z 1) with 1. lra. }
    rewrite <- Zlt_Qlt in Hlt. lia.
Qed.

Lemma quotient_bounds (c t : Z) :
  (0 <= c <= t)%Z -> (1 <= t)%Z ->
  0 <= inject_Z c / inject_Z t /\ inject_Z c / inject_Z t <= inject_Z 1.
Proof.
  intros Hc Ht.
  assert (0 < inject_Z t) as Htq.
  { change 0 with (inject_Z 0). rewrite <- Zlt_Qlt. lia. }
  split.
  - apply Qle_shift_div_l; [done |]. rewrite Qmult_0_l.
    change 0 with (inject_Z 0). rewrite <- Zle_Qle. lia.
  - apply Qle_shift_div_r; [done |]. rewrite Qmult_1_l. rewrite <- Zle_Qle. lia.
Qed.

Lemma percentage_bounds (c t : Z) :
  (0 <= c <= t)%Z -> (1 <= t)%Z ->
  0 <= fmul (fdiv (inject_Z c) (inject_Z t)) 100 /\
  fmul (fdiv (inject_Z c) (inject_Z t)) 100 <= inject_Z 100.
Proof.
  intros Hc Ht. destruct (quotient_bounds c t Hc Ht) as [Hq0 Hq1].
  pose proof (fl_nonneg _ Hq0) as Hf0.
  pose proof (fl_le_int _ 1 Hq0 Hq1 ltac:(lia)) as Hf1.
  fold (fdiv (inject_Z c) (inject_Z t)) in Hf0, Hf1.
  set (q := fdiv (inject_Z c) (inject_Z t)) in *.
  assert (0 <= q * 100) as Hp0 by (change (inject_Z 1) with 1 in Hf1; lra).
  assert (q * 100 <= inject_Z 100) as Hp1.
  { change (inject_Z 100) with 100. change (inject_Z 1) with 1 in Hf1. lra. }
  split; [by apply fl_nonneg | by apply fl_le_int; [| | lia]].
Qed.
End Float64Facts.

Module LedgerFacts.
Import Ledger.
Local Open Scope Z_scope.

Lemma computeMastery_bounds c t :
  0 <= c <= t -> 1 <= t -> 0 <= computeMastery c t <= 100.
Proof.
  intros Hc Ht. unfold computeMastery.
  destruct (Float64Facts.percentage_bounds c t Hc Ht) as [H0 H100].
  by apply Float64Facts.Math_round_bounds.
Qed.










(** The scenario of the specification, a fresh key answered true, false,
    true, true: the first answer is not in the stored counters. *)
Lemma replay_scenario :
  (replay "u" "AP Biology" "Unit 1" [true; false; true; true]
          (<["u" := newUser]> ∅)).1 = [100; 0; 50; 67].
Proof. vm_compute. reflexivity. Qed.

(** The rational model and the binary64 floats of the kernel compute the
    same product [(c / t) * 100] for all 0 <= c <= t <= 200. *)
Lemma model_agrees_with_binary64 :
  forallb (fun t => forallb (fun c => Float64.agrees_with_prim c t)
                            (seqZ 0 (t + 1)))
          (seqZ 1 200) = true.
Proof. vm_compute. reflexivity. Qed.



(** C6.  On a fresh key the answers true, false, true, true are answered
    with mastery 100, 0, 50, 67, not 100, 50, 67, 75: the entry pushed for the
    key is stored with counters 0, and the first answer never reaches them.
    And where the counters reach 23 correct out of 40, the route stores and
    returns mastery 57: the binary64 quotient 23 / 40 times 100 is just below
    57.5, while the integer closest to 100 * 23 / 40 = 57.5 is 58. *)
Theorem C6_mastery_differs_from_rounded_percentage :
  (replay "u" "AP Biology" "Unit 1" [true; false; true; true]
          (<["u" := newUser]> ∅)).1 = [100; 0; 50; 67] /\
  progress <$> (replay "u" "AP Biology" "Unit 1" [true]
                       (<["u" := newUser]> ∅)).2 !! "u"
  = Some [mkProgress "AP Biology" "Unit 1" false 0 0 0 None] /\
  last (replay "u" "AP Biology" "Unit 1"
               (replicate 18 false ++ replicate 23 true)
               (<["u" := newUser]> ∅)).1 = Some 57 /\
  progress <$> (replay "u" "AP Biology" "Unit 1"
                       (replicate 18 false ++ replicate 23 true)
                       (<["u" := newUser]> ∅)).2 !! "u"
  = Some [mkProgress "AP Biology" "Unit 1" false 57 40 23 (Some 0)] /\
  computeMastery 23 40 = 57 /\
  specMastery 23 40 = 58 /\
  Float64.agrees_with_prim 23 40 = true.
Proof. vm_compute. repeat split; reflexivity. Qed.

End LedgerFacts.

Module ProfilesFacts.
Import Profiles.

Lemma startsWith_spec s k :
  startsWith s k = true <-> exists after, s = k +:+ after.
Proof.
  revert s. induction k as [| a k IH]; intros s; cbn.
  - split; [intros _; by exists s | done].
  - destruct s as [| b s]; cbn.
    + split; [done | intros [after [=]]].
    + rewrite andb_true_iff, bool_decide_eq_true, IH. split.
      * intros [-> [after ->]]. by exists after.
      * intros [after [= -> ->]]. split; [done | by exists after].
Qed.

Lemma includes_spec s k : includes s k = true <-> occursIn k s.
Proof.
  unfold occursIn. induction s as [| c s IH]; cbn.
  - rewrite orb_false_r, startsWith_spec. split.
    + intros [after ->]. by exists ""%string, after.
    + intros [before [after H]]. destruct before as [| c before]; cbn in H.
      * by exists after.
      * discriminate.
  - rewrite orb_true_iff, startsWith_spec, IH. split.
    + intros [[after ->] | [before [after ->]]].
      * by exists ""%string, after.
      * by exists (String c before), after.
    + intros [before [after H]]. destruct before as [| c' before]; cbn in H.
      * left. by exists after.
      * injection H as <- ->. right. by exists before, after.
Qed.

Lemma matchesKeyword_spec normalizedClass keywords :
  matchesKeyword normalizedClass keywords = true <->
  exists k, k ∈ keywords /\ occursIn (toLowerCase k) normalizedClass.
Proof.
  unfold matchesKeyword. rewrite existsb_exists. split.
  - intros [k [Hin Hk]]. exists k. split; [by apply list_elem_of_In |].
    by apply includes_spec.
  - intros [k [Hin Hk]]. exists k. split; [by apply list_elem_of_In |].
    by apply includes_spec.
Qed.

Lemma keywords_lower k : k ∈ firstProfileKeywords -> toLowerCase k = k.
Proof.
  unfold firstProfileKeywords, historyKeywords, englishKeywords. cbn.
  rewrite !elem_of_cons, elem_of_nil.
  intros H. repeat (destruct H as [-> | H]; [reflexivity |]). done.
Qed.

(** C5, as the source has it.  [selectModelForClass] returns one of two
    models; it returns the first exactly for the class names in which,
    lower-cased, one of the history or social-science keywords, one of the
    English keywords or "computer science principles" occurs. *)
Theorem C5_selectModelForClass_by_keyword className :
  (selectModelForClass className = "gpt-4.1-mini"%string <->
   exists k, k ∈ firstProfileKeywords /\
             occursIn k (toLowerCase (default ""%string className))) /\
  (selectModelForClass className <> "gpt-4.1-mini"%string ->
   selectModelForClass className = "gpt-5-mini"%string).
Proof.
  unfold selectModelForClass.
  set (n := toLowerCase (default ""%string className)).
  destruct (matchesKeyword n historyKeywords || matchesKeyword n englishKeywords
            || includes n "economics" || includes n "computer science principles")
    eqn:E.
  - split; [| done]. split; [intros _ | done].
    rewrite !orb_true_iff, !matchesKeyword_spec, !includes_spec in E.
    destruct E as [[[[k [Hk Ho]] | [k [Hk Ho]]] | Ho] | Ho].
    + assert (k ∈ firstProfileKeywords) as Hin
        by (unfold firstProfileKeywords; rewrite !elem_of_app; auto).
      exists k. split; [done |]. by rewrite <- (keywords_lower k Hin).
    + assert (k ∈ firstProfileKeywords) as Hin
        by (unfold firstProfileKeywords; rewrite !elem_of_app; auto).
      exists k. split; [done |]. by rewrite <- (keywords_lower k Hin).
    + exists "economics"%string. split; [| done].
      unfold firstProfileKeywords. rewrite !elem_of_app, !elem_of_cons. auto.
    + exists "computer science principles"%string. split; [| done].
      unfold firstProfileKeywords. rewrite !elem_of_app, !elem_of_cons. auto.
  - split; [| done]. split; [done |].
    intros [k [Hin Ho]]. exfalso.
    rewrite !orb_false_iff in E. destruct E as [[[Eh Ee] Ec] Ep].
    assert (includes n k = true) as Hk by by apply includes_spec.
    unfold firstProfileKeywords in Hin.
    rewrite !elem_of_app in Hin. destruct Hin as [Hin | [Hin | Hin]].
    + assert (matchesKeyword n historyKeywords = true); [| congruence].
      apply matchesKeyword_spec. exists k. split; [done |].
      rewrite keywords_lower; [done |].
      unfold firstProfileKeywords; rewrite !elem_of_app; auto.
    + assert (matchesKeyword n englishKeywords = true); [| congruence].
      apply matchesKeyword_spec. exists k. split; [done |].
      rewrite keywords_lower; [done |].
      unfold firstProfileKeywords; rewrite !elem_of_app; auto.
    + rewrite !elem_of_cons, elem_of_nil in Hin.
      destruct Hin as [-> | [-> | []]]; congruence.
Qed.

(** C5, as the specification words it, fails: "AP Computer Science
    Principles" is served by the first model although no keyword of the
    history, social-science or English tables occurs in it. *)
Lemma C5_computer_science_principles_uses_first_profile :
  selectModelForClass (Some "AP Computer Science Principles"%string)
    = "gpt-4.1-mini"%string /\
  humanitiesOrSocialScience (Some "AP Computer Science Principles"%string) = false.
Proof. split; reflexivity. Qed.

(** The expectations of the repository's own test of the helper. *)
Lemma selectModelForClass_tests :
  selectModelForClass (Some "AP US History"%string) = "gpt-4.1-mini"%string /\
  selectModelForClass (Some "AP Computer Science Principles"%string)
    = "gpt-4.1-mini"%string /\
  selectModelForClass (Some "AP Biology"%string) = "gpt-5-mini"%string.
Proof. repeat split; reflexivity. Qed.

End ProfilesFacts.

Module CacheFacts.
Import Cache.

(** ** The collection operations *)

Lemma updateFirst_None className unit q docs :
  updateFirst className unit q docs = None <->
  List.find (matches className unit) docs = None.
Proof.
  induction docs as [| d docs IH]; cbn; [done |].
  destruct (matches className unit d); [done |].
  destruct (updateFirst className unit q docs) as [[d' rest] |].
  - split; [done |]. intros H. apply IH in H. discriminate.
  - split; [intros _; by apply IH | done].
Qed.

Lemma matches_key className unit d :
  matches className unit d = true <-> key d = (className, unit).
Proof.
  unfold matches, key. rewrite andb_true_iff, !bool_decide_eq_true.
  split; [by intros [-> ->] | by intros [= -> ->]].
Qed.

Lemma updateFirst_Some className unit q docs d docs' :
  updateFirst className unit q docs = Some (d, docs') ->
  exists d0,
    List.find (matches className unit) docs = Some d0 /\
    d = overwrite className unit q d0 /\
    List.find (matches className unit) docs' = Some d /\
    key <$> docs' = key <$> docs /\
    d0 ∈ docs /\
    (forall x, x ∈ docs' -> x = d \/ x ∈ docs).
Proof.
  revert d docs'. induction docs as [| e docs IH]; intros d docs'; cbn; [done |].
  destruct (matches className unit e) eqn:Em.
  - intros [= <- <-]. exists e. cbn.
    assert (matches className unit (overwrite className unit q e) = true) as ->.
    { apply matches_key. reflexivity. }
    apply matches_key in Em. repeat split; try done.
    + cbn. f_equal. by rewrite Em.
    + by left.
    + intros x. rewrite !elem_of_cons. intros [-> | H]; [by left | right; by right].
  - destruct (updateFirst className unit q docs) as [[d' rest] |] eqn:Eu; [| done].
    intros [= <- <-]. destruct (IH d' rest eq_refl) as (d0 & Hf & Hd & Hf' & Hk & Hin & Hall).
    exists d0. cbn. rewrite Em. repeat split; try done.
    + by rewrite Hk.
    + by right.
    + intros x. rewrite !elem_of_cons. intros [-> | H]; [right; by left |].
      destruct (Hall x H) as [-> | H']; [by left | right; by right].
Qed.

Lemma find_None_key className unit docs :
  List.find (matches className unit) docs = None ->
  (className, unit) ∉ key <$> docs.
Proof.
  intros Hf Hin. apply list_elem_of_fmap in Hin as [d [Hk Hd]].
  apply list_elem_of_In in Hd.
  pose proof (find_none _ _ Hf d Hd) as Hm.
  assert (matches className unit d = true) by by apply matches_key.
  congruence.
Qed.

Lemma find_snoc_None {T} (f : T -> bool) l x :
  List.find f l = None -> List.find f (l ++ [x]) = List.find f [x].
Proof.
  induction l as [| y l IH]; cbn; [done |].
  destruct (f y); [done | apply IH].
Qed.

Lemma find_Some_elem className unit docs d :
  List.find (matches className unit) docs = Some d ->
  d ∈ docs /\ key d = (className, unit).
Proof.
  intros Hf. destruct (find_some _ _ Hf) as [Hin Hm].
  split; [by apply list_elem_of_In | by apply matches_key].
Qed.

(** ** The invariant of asynchronous execution *)

Lemma putAttempted_mono q effs e :
  putAttempted q effs -> putAttempted q (effs ++ [e]).
Proof.
  intros (b & Hb & [H | [id H]]); exists b; (split; [done |]).
  - left. apply elem_of_app. by left.
  - right. exists id. apply elem_of_app. by left.
Qed.

Lemma taskOk_mono effs e t : taskOk effs t -> taskOk (effs ++ [e]) t.
Proof.
  destruct t; cbn; try done.
  - intros H. apply elem_of_app. by left.
  - intros [H1 H2]. split; [apply elem_of_app; by left | by apply putAttempted_mono].
  - intros [H1 H2]. split; [apply elem_of_app; by left | by apply putAttempted_mono].
Qed.

Lemma order_append effs e :
  (forall i id c u q, effs !! i = Some (CacheWritten id c u q) ->
                      putAttempted q (take i effs)) ->
  (forall id c u q, e = CacheWritten id c u q -> putAttempted q effs) ->
  forall i id c u q, (effs ++ [e]) !! i = Some (CacheWritten id c u q) ->
                     putAttempted q (take i (effs ++ [e])).
Proof.
  intros Hold Hnew i id c u q Hi.
  apply lookup_snoc_Some in Hi as [[Hlt Hi] | [-> He]].
  - rewrite take_app_le by lia. by eapply Hold.
  - rewrite take_app_length. by eapply Hnew.
Qed.

Lemma inv_add_task w ts rs t :
  Invariant (mkSystem w ts rs) -> taskOk (effects w) t ->
  Invariant (mkSystem w (ts ++ [t]) rs).
Proof.
  intros [] Ht. constructor; cbn in *; try done.
  apply Forall_app. split; [done | by constructor].
Qed.

Lemma inv_del_task w ts rs i :
  Invariant (mkSystem w ts rs) -> Invariant (mkSystem w (delete i ts) rs).
Proof. intros []. constructor; cbn in *; try done. by apply Forall_delete. Qed.

Lemma inv_settle_inl owner e w ts rs :
  Invariant (mkSystem w ts rs) -> Invariant (settle owner (inl e) w ts rs).
Proof.
  intros []. destruct owner; [| by constructor].
  constructor; cbn in *; try done.
  intros r sv Hin. apply elem_of_app in Hin as [Hin | Hin]; [by eapply inv_replies0 |].
  by apply list_elem_of_singleton in Hin.
Qed.

Lemma inv_settle_inr owner sv w ts rs :
  Invariant (mkSystem w ts rs) ->
  ProviderReturned (answer sv) ∈ effects w /\ (exists n, questionId sv = ObjectId n) ->
  Invariant (settle owner (inr sv) w ts rs).
Proof.
  intros [] Hsv. destruct owner; [| by constructor].
  constructor; cbn in *; try done.
  intros r sv' Hin. apply elem_of_app in Hin as [Hin | Hin]; [by eapply inv_replies0 |].
  apply list_elem_of_singleton in Hin. by injection Hin as _ <-.
Qed.

Lemma inv_setImmediates l w ts rs :
  Invariant (mkSystem w ts rs) -> Invariant (mkSystem (setImmediates l w) ts rs).
Proof. intros []. by constructor. Qed.

Lemma inv_clear w ts rs :
  Invariant (mkSystem w ts rs) -> Invariant (mkSystem (setQuestions [] w) ts rs).
Proof.
  intros []. constructor; cbn in *; try done.
  intros d Hd. by apply elem_of_nil in Hd.
Qed.

(** Appending an effect that is not a cache write keeps everything that
    was known. *)
Lemma inv_record e w ts rs :
  (forall id c u q, e <> CacheWritten id c u q) ->
  (forall id b, e <> BlobWritten id b) ->
  Invariant (mkSystem w ts rs) -> Invariant (mkSystem (record e w) ts rs).
Proof.
  intros Hc Hb []. constructor; cbn in *; try done.
  - intros d Hd. destruct (inv_docs0 d Hd) as [H1 H2].
    split; [apply elem_of_app; by left | done].
  - eapply Forall_impl; [done |]. intros t. apply taskOk_mono.
  - intros r sv Hin. destruct (inv_replies0 r sv Hin) as [H1 H2].
    split; [apply elem_of_app; by left | done].
  - apply order_append; [done |]. intros id c u q ->. by destruct (Hc id c u q).
  - intros id b Hin. apply elem_of_app in Hin as [Hin | Hin]; [by apply inv_blobs0 |].
    apply list_elem_of_singleton in Hin. by destruct (Hb id b).
Qed.

Lemma inv_nextUuid w ts rs :
  Invariant (mkSystem w ts rs) ->
  Invariant (mkSystem (setNextUuid (S (nextUuid w)) w) ts rs).
Proof.
  intros []. constructor; cbn in *; try done.
  intros id Hid. destruct (inv_ids0 id Hid) as (n & -> & Hn). exists n. split; [done | lia].
Qed.

Lemma inv_blob_written b w ts rs :
  Invariant (mkSystem w ts rs) ->
  Invariant (mkSystem
               (record (BlobWritten (Uuid (nextUuid w)) b)
                  (setBucket (<[Uuid (nextUuid w) := b]> (bucket w))
                     (setNextUuid (S (nextUuid w)) w))) ts rs).
Proof.
  intros []. constructor; cbn in *; try done.
  - intros d Hd. destruct (inv_docs0 d Hd) as [H1 H2].
    split; [apply elem_of_app; by left | done].
  - eapply Forall_impl; [done |]. intros t. apply taskOk_mono.
  - intros r sv Hin. destruct (inv_replies0 r sv Hin) as [H1 H2].
    split; [apply elem_of_app; by left | done].
  - apply order_append; [done |]. by intros id c u q.
  - intros id b' Hin. apply elem_of_app in Hin as [Hin | Hin].
    + pose proof (inv_blobs0 id b' Hin) as Hl.
      destruct (inv_ids0 id (mk_is_Some _ _ Hl)) as (n & -> & Hn).
      rewrite lookup_insert_ne; [done |]. intros [= Heq]. lia.
    + apply list_elem_of_singleton in Hin. injection Hin as -> ->.
      by rewrite lookup_insert_eq.
  - intros id Hid. destruct (decide (id = Uuid (nextUuid w))) as [-> | Hne].
    + exists (nextUuid w). split; [done | lia].
    + rewrite lookup_insert_ne in Hid by done.
      destruct (inv_ids0 id Hid) as (n & -> & Hn). exists n. split; [done | lia].
Qed.

Lemma inv_saveQuestionToS3 ok b w ts rs :
  Invariant (mkSystem w ts rs) ->
  Invariant (mkSystem (saveQuestionToS3 ok b w).2 ts rs) /\
  putAttempted (blobQuestion b) (effects (saveQuestionToS3 ok b w).2) /\
  (forall e, e ∈ effects w -> e ∈ effects (saveQuestionToS3 ok b w).2).
Proof.
  intros Hinv. destruct ok; cbn.
  - split; [by apply inv_blob_written |]. split.
    + exists b. split; [done |]. right. exists (Uuid (nextUuid w)).
      apply elem_of_app. right. by apply list_elem_of_singleton.
    + intros e He. apply elem_of_app. by left.
  - split; [| split].
    + apply inv_record; [done | done |]. by apply inv_nextUuid.
    + exists b. split; [done |]. left.
      apply elem_of_app. right. by apply list_elem_of_singleton.
    + intros e He. apply elem_of_app. by left.
Qed.

Lemma docData_overwrite className unit q d :
  docData (overwrite className unit q d) = q.
Proof. by destruct q. Qed.

Lemma findOneAndUpdate_phases className unit q w :
  findOneAndUpdate true className unit q w
  = match updateFirst className unit q (questions w) with
    | Some (d, docs) =>
        (inr d, record (CacheWritten (doc_id d) className unit q)
                       (setQuestions docs w))
    | None => upsertInsert className unit q w
    end.
Proof.
  unfold findOneAndUpdate, bind, upsertUpdate.
  by destruct (updateFirst className unit q (questions w)) as [[d docs] |].
Qed.

Lemma inv_upsertUpdate className unit q w ts rs :
  Invariant (mkSystem w ts rs) ->
  ProviderReturned q ∈ effects w -> putAttempted q (effects w) ->
  match upsertUpdate className unit q w with
  | (inr (Some d), w') =>
      Invariant (mkSystem w' ts rs) /\
      ProviderReturned q ∈ effects w' /\ docData d = q /\
      exists n, doc_id d = ObjectId n
  | (_, w') => w' = w
  end.
Proof.
  intros [] Hq Hput. unfold upsertUpdate. cbn in *.
  destruct (updateFirst className unit q (questions w)) as [[d docs] |] eqn:Eu;
    [| done].
  destruct (updateFirst_Some _ _ _ _ _ _ Eu)
    as (d0 & Hf & -> & Hf' & Hk & Hin0 & Hall).
  split; [| split; [apply elem_of_app; by left |];
            split; [apply docData_overwrite |];
            destruct (inv_docs0 d0 Hin0) as [_ (n & Hn & _)]; by exists n].
  constructor; cbn; try done.
  - intros x Hx. destruct (Hall x Hx) as [-> | Hx'].
    + rewrite docData_overwrite. split; [apply elem_of_app; by left |].
      cbn. by apply inv_docs0.
    + destruct (inv_docs0 x Hx') as [H1 H2].
      split; [apply elem_of_app; by left | done].
  - eapply Forall_impl; [done |]. intros t. apply taskOk_mono.
  - intros r sv Hin. destruct (inv_replies0 r sv Hin) as [H1 H2].
    split; [apply elem_of_app; by left | done].
  - apply order_append; [done |]. by intros id c u q' [= _ _ _ <-].
  - intros id b Hin. apply elem_of_app in Hin as [Hin | Hin]; [by apply inv_blobs0 |].
    by apply list_elem_of_singleton in Hin.
Qed.

Lemma inv_upsertInsert className unit q w ts rs :
  Invariant (mkSystem w ts rs) ->
  ProviderReturned q ∈ effects w -> putAttempted q (effects w) ->
  Invariant (mkSystem (upsertInsert className unit q w).2 ts rs) /\
  ProviderReturned q ∈ effects (upsertInsert className unit q w).2 /\
  exists d, (upsertInsert className unit q w).1 = inr d /\
            docData d = q /\ exists n, doc_id d = ObjectId n.
Proof.
  intros [] Hq Hput. unfold upsertInsert, newDoc. cbn in *.
  split; [| split; [apply elem_of_app; by left |];
            eexists; split; [done |];
            split; [apply docData_overwrite | by eexists]].
  constructor; cbn; try done.
  - intros x Hx. apply elem_of_app in Hx as [Hx | Hx].
    + destruct (inv_docs0 x Hx) as [H1 (n & H2 & H3)].
      split; [apply elem_of_app; by left |]. exists n. split; [done | lia].
    + apply list_elem_of_singleton in Hx as ->. rewrite docData_overwrite.
      split; [apply elem_of_app; by left |]. cbn.
      exists (nextObjectId w). split; [done | lia].
  - eapply Forall_impl; [done |]. intros t. apply taskOk_mono.
  - intros r sv Hin. destruct (inv_replies0 r sv Hin) as [H1 H2].
    split; [apply elem_of_app; by left | done].
  - apply order_append; [done |]. by intros id c u q' [= _ _ _ <-].
  - intros id b Hin. apply elem_of_app in Hin as [Hin | Hin]; [by apply inv_blobs0 |].
    by apply list_elem_of_singleton in Hin.
Qed.

Lemma initial_Invariant : Invariant initial.
Proof.
  constructor; cbn; try done.
  - intros d Hd. by apply elem_of_nil in Hd.
  - intros r sv Hin. by apply elem_of_nil in Hin.
  - intros id b Hin. by apply elem_of_nil in Hin.
  - intros id [b Hb]. by rewrite lookup_empty in Hb.
Qed.

#[local] Arguments settle : simpl never.

Lemma resume_Invariant t o w ts rs :
  Invariant (mkSystem w ts rs) -> taskOk (effects w) t ->
  Invariant (resume t o w ts rs).
Proof.
  intros Hinv Ht.
  destruct t as [r c u | owner c u | owner c u q | owner c u result
                | owner c u result]; cbn [resume].
  - unfold findOne. destruct (findOk o); cbn; [| by apply inv_settle_inl].
    destruct (List.find (matches c u) (questions w)) as [doc |] eqn:Ef.
    + apply inv_settle_inr; [by apply inv_setImmediates |]. cbn.
      destruct (find_Some_elem _ _ _ _ Ef) as [Hin _].
      destruct Hinv. destruct (inv_docs0 doc Hin) as [H1 (n & H2 & _)].
      split; [done | by exists n].
    + by apply inv_add_task.
  - destruct (JS.falsy c); [by apply inv_settle_inl |].
    destruct (provider o) as [q | message]; [| by apply inv_settle_inl].
    apply inv_add_task; [by apply inv_record |].
    cbn. apply elem_of_app. right. by apply list_elem_of_singleton.
  - cbn in Ht.
    set (b := mkBlob q c (if JS.falsy u then "General"%string else u)).
    destruct (inv_saveQuestionToS3 (putOk o) b w ts rs Hinv) as (Hi & Hp & Hm).
    destruct (saveQuestionToS3 (putOk o) b w) as [[e | id] w'] eqn:Es; cbn in *.
    + apply inv_add_task; [done |]. cbn. split; [by apply Hm | done].
    + apply inv_add_task; [done |]. cbn. split; [by apply Hm | done].
  - destruct (upsertOk o); [| by apply inv_settle_inl].
    pose proof Ht as [Hq Hp].
    pose proof (inv_upsertUpdate c u (genAnswer result) w ts rs Hinv Hq Hp) as Hu.
    destruct (upsertUpdate c u (genAnswer result) w) as [[e | [d |]] w'].
    + subst w'. by apply inv_settle_inl.
    + destruct Hu as (Hi & Hq' & Hd & Hn). by apply inv_settle_inr.
    + subst w'. by apply inv_add_task.
  - destruct (upsertOk o); [| by apply inv_settle_inl].
    destruct Ht as [Hq Hp].
    destruct (inv_upsertInsert c u (genAnswer result) w ts rs Hinv Hq Hp)
      as (Hi & Hq' & d & Hd & Hdata & Hn).
    destruct (upsertInsert c u (genAnswer result) w) as [r w'].
    cbn [fst snd] in *. subst r. by apply inv_settle_inr.
Qed.

Lemma step_Invariant a s s' : Invariant s -> step a s = Some s' -> Invariant s'.
Proof.
  destruct s as [w ts rs]. intros Hinv.
  destruct a as [r c u o | r c u o | connect ok | | i o]; cbn.
  - destruct (connectOk o); intros [= <-];
      [by apply inv_add_task | by apply (inv_settle_inl (Foreground r))].
  - destruct (connectOk o); intros [= <-];
      [by apply inv_add_task | by apply (inv_settle_inl (Foreground r))].
  - intros [= <-]. destruct connect, ok; try done. by apply inv_clear.
  - destruct (immediates w) as [| [c u] rest]; [done |]. intros [= <-].
    apply inv_add_task; [by apply inv_setImmediates | done].
  - destruct (ts !! i) as [t |] eqn:Et; [| done]. intros [= <-].
    apply resume_Invariant; [by apply inv_del_task |].
    destruct Hinv. cbn in *. by eapply Forall_lookup_1.
Qed.

Lemma run_Invariant actions s s' :
  Invariant s -> run actions s = Some s' -> Invariant s'.
Proof.
  revert s. induction actions as [| a actions IH]; intros s Hinv; cbn.
  - by intros [= <-].
  - destruct (step a s) as [s1 |] eqn:Es; [| done].
    apply IH. by eapply step_Invariant.
Qed.

Lemma reachable_Invariant s : reachable s -> Invariant s.
Proof. intros [actions Hrun]. eapply run_Invariant; [apply initial_Invariant | done]. Qed.

(** ** Sequential behaviour of the service functions *)

Lemma getCachedQuestion_hit o className unit doc w :
  connectOk o = true -> findOk o = true ->
  List.find (matches className unit) (questions w) = Some doc ->
  getCachedQuestion o className unit w =
    (inr (serve doc), setImmediates (immediates w ++ [(className, unit)]) w).
Proof.
  intros Hc Hf Hfind. unfold getCachedQuestion, bind, ensureDbConnection, findOne.
  rewrite Hc, Hf. cbn. by rewrite Hfind.
Qed.

Lemma getCachedQuestion_miss o className unit w :
  connectOk o = true -> findOk o = true ->
  List.find (matches className unit) (questions w) = None ->
  getCachedQuestion o className unit w = generateAndStoreQuestion o className unit w.
Proof.
  intros Hc Hf Hfind. unfold getCachedQuestion, bind, ensureDbConnection, findOne.
  rewrite Hc, Hf. cbn. by rewrite Hfind.
Qed.

Lemma generateAndStoreQuestion_provider_failed o className unit message w :
  connectOk o = true -> provider o = Failed message ->
  exists m, generateAndStoreQuestion o className unit w = (inl (GenerationError m), w).
Proof.
  intros Hc Hp.
  unfold generateAndStoreQuestion, bind, ensureDbConnection, generateAPQuestion.
  rewrite Hc, Hp. cbn. destruct (JS.falsy className); cbn; eauto.
Qed.

(** C7.  On a key without cache entry, when the provider fails the fetch is
    rejected with a generation error and the world (cache, bucket, queue) is
    the one before the call; a later fetch of the key is again the
    synchronous generate-and-store. *)
Theorem C7_failed_generation_leaves_key_absent o className unit message w :
  connectOk o = true -> findOk o = true -> provider o = Failed message ->
  List.find (matches className unit) (questions w) = None ->
  (exists m, getCachedQuestion o className unit w = (inl (GenerationError m), w)) /\
  List.find (matches className unit)
            (questions (getCachedQuestion o className unit w).2) = None /\
  forall o', connectOk o' = true -> findOk o' = true ->
    getCachedQuestion o' className unit (getCachedQuestion o className unit w).2
    = generateAndStoreQuestion o' className unit w.
Proof.
  intros Hc Hf Hp Hfind.
  rewrite (getCachedQuestion_miss o className unit w Hc Hf Hfind).
  destruct (generateAndStoreQuestion_provider_failed o className unit message w Hc Hp)
    as [m Hm].
  rewrite Hm. cbn. split; [by exists m |]. split; [done |].
  intros o' Hc' Hf'. by apply getCachedQuestion_miss.
Qed.

Lemma C7_witness :
  (exists m, getCachedQuestion providerFails "AP Biology" "Unit 99" emptyWorld
             = (inl (GenerationError m), emptyWorld)) /\
  List.find (matches "AP Biology" "Unit 99")
            (questions (getCachedQuestion providerFails "AP Biology" "Unit 99"
                                          emptyWorld).2) = None /\
  forall o', connectOk o' = true -> findOk o' = true ->
    getCachedQuestion o' "AP Biology" "Unit 99"
      (getCachedQuestion providerFails "AP Biology" "Unit 99" emptyWorld).2
    = generateAndStoreQuestion o' "AP Biology" "Unit 99" emptyWorld.
Proof.
  apply (C7_failed_generation_leaves_key_absent
           providerFails "AP Biology" "Unit 99" "provider error" emptyWorld);
    reflexivity.
Defined.

(** C8.  Two fetches of a key that has a cache entry, with no cache write
    between them, resolve to the same value: the stored question under the
    stored id, marked as cached.  The first fetch itself writes nothing to
    the cache. *)
Theorem C8_two_hits_serve_the_same_question o1 o2 className unit doc w w' :
  connectOk o1 = true -> findOk o1 = true ->
  connectOk o2 = true -> findOk o2 = true ->
  List.find (matches className unit) (questions w) = Some doc ->
  questions w' = questions w ->
  questions (getCachedQuestion o1 className unit w).2 = questions w /\
  exists sv,
    (getCachedQuestion o1 className unit w).1 = inr sv /\
    (getCachedQuestion o2 className unit w').1 = inr sv /\
    cached sv = true /\ questionId sv = doc_id doc /\ answer sv = docData doc.
Proof.
  intros Hc1 Hf1 Hc2 Hf2 Hfind Hsame.
  rewrite (getCachedQuestion_hit o1 className unit doc w Hc1 Hf1 Hfind).
  rewrite <- Hsame in Hfind.
  rewrite (getCachedQuestion_hit o2 className unit doc w' Hc2 Hf2 Hfind).
  split; [done |]. by exists (serve doc).
Qed.

Lemma C8_witness :
  questions (getCachedQuestion (allOk otherQuestion) "AP Biology" "Unit 1"
                               populatedWorld).2 = questions populatedWorld /\
  exists sv,
    (getCachedQuestion (allOk otherQuestion) "AP Biology" "Unit 1"
                       populatedWorld).1 = inr sv /\
    (getCachedQuestion (allOk otherQuestion) "AP Biology" "Unit 1"
       (getCachedQuestion (allOk otherQuestion) "AP Biology" "Unit 1"
                          populatedWorld).2).1 = inr sv /\
    cached sv = true /\ questionId sv = doc_id sampleDoc /\
    answer sv = docData sampleDoc.
Proof.
  apply (C8_two_hits_serve_the_same_question
           (allOk otherQuestion) (allOk otherQuestion) "AP Biology" "Unit 1"
           sampleDoc populatedWorld
           (getCachedQuestion (allOk otherQuestion) "AP Biology" "Unit 1"
                              populatedWorld).2);
    reflexivity.
Defined.

(** The scenario of the specification: a cold fetch, then a fetch of the
    same key, returns the same id and question, first fresh, then cached. *)
Lemma cold_then_warm_scenario :
  exists sv1 sv2,
    (getCachedQuestion (allOk sampleQuestion) "AP Biology" "Unit 1" emptyWorld).1
      = inr sv1 /\
    (getCachedQuestion (allOk otherQuestion) "AP Biology" "Unit 1" populatedWorld).1
      = inr sv2 /\
    cached sv1 = false /\ cached sv2 = true /\
    questionId sv1 = questionId sv2 /\ answer sv1 = answer sv2.
Proof. eexists _, _. repeat split; reflexivity. Qed.

(** ** C3: a refused blob write on a cold miss *)

(** C3, as stated, fails: on an empty cache, with the provider answering
    and the blob write refused, the fetch resolves with the question. *)
Lemma C3_refused_put_is_not_propagated :
  (getCachedQuestion (putFails sampleQuestion) "AP Biology" "Unit 1" emptyWorld).1
  = inr (mkServed sampleQuestion "openai" "gpt-5-mini" false (ObjectId 0)).
Proof. reflexivity. Qed.

Lemma generateAPQuestion_put_refused o className unit q w :
  JS.falsy className = false -> provider o = Parsed q -> putOk o = false ->
  exists b,
    blobQuestion b = q /\
    generateAPQuestion o className unit w =
      (inr (mkGenerated q "openai" (Profiles.selectModelForClass (Some className)) None),
       record (BlobWriteFailed b)
              (setNextUuid (S (nextUuid w)) (record (ProviderReturned q) w))).
Proof.
  intros Hn Hp Hput. unfold generateAPQuestion. rewrite Hn, Hp, Hput.
  exists (mkBlob q className (if JS.falsy unit then "General"%string else unit)).
  split; reflexivity.
Qed.

(** C3, as the source has it.  On a key without cache entry, when the
    provider answers and the blob write is refused, the refusal is caught
    inside [generateAPQuestion]: the fetch resolves with the generated
    question, not served from cache, the question is now the cache entry of
    the key and the bucket is as before.  What rejects the fetch is a failure
    of the provider or of the cache write. *)
Theorem C3_refused_put_is_swallowed_on_cold_miss o className unit q w :
  connectOk o = true -> findOk o = true ->
  JS.falsy className = false -> provider o = Parsed q ->
  List.find (matches className unit) (questions w) = None ->
  (putOk o = false -> upsertOk o = true ->
   exists doc,
     (getCachedQuestion o className unit w).1
       = inr (mkServed q "openai" (Profiles.selectModelForClass (Some className))
                       false (doc_id doc)) /\
     List.find (matches className unit)
               (questions (getCachedQuestion o className unit w).2) = Some doc /\
     docData doc = q /\
     bucket (getCachedQuestion o className unit w).2 = bucket w) /\
  (upsertOk o = false ->
   (getCachedQuestion o className unit w).1
     = inl (DatabaseError "findOneAndUpdate failed")).
Proof.
  intros Hc Hf Hn Hp Hfind.
  rewrite (getCachedQuestion_miss o className unit w Hc Hf Hfind).
  split.
  - intros Hput Hup.
    destruct (generateAPQuestion_put_refused o className unit q w Hn Hp Hput)
      as (b & Hb & Hgen).
    unfold generateAndStoreQuestion, bind, ensureDbConnection.
    rewrite Hc. cbn. rewrite Hgen. cbn.
    unfold findOneAndUpdate, bind, upsertUpdate. rewrite Hup. cbn.
    rewrite (proj2 (updateFirst_None className unit q (questions w)) Hfind). cbn.
    exists (newDoc (ObjectId (nextObjectId w)) className unit q).
    split; [reflexivity |]. split; [| split; [apply docData_overwrite | done]].
    rewrite (find_snoc_None _ _ _ Hfind). cbn. unfold matches. cbn.
    by rewrite !bool_decide_eq_true_2.
  - intros Hup.
    unfold generateAndStoreQuestion, bind, ensureDbConnection, generateAPQuestion.
    rewrite Hc, Hn, Hp. cbn. unfold findOneAndUpdate. rewrite Hup.
    by destruct (putOk o).
Qed.

Lemma C3_witness :
  (putOk (putFails sampleQuestion) = false ->
   upsertOk (putFails sampleQuestion) = true ->
   exists doc,
     (getCachedQuestion (putFails sampleQuestion) "AP Biology" "Unit 1" emptyWorld).1
       = inr (mkServed sampleQuestion "openai"
                       (Profiles.selectModelForClass (Some "AP Biology"%string))
                       false (doc_id doc)) /\
     List.find (matches "AP Biology" "Unit 1")
       (questions (getCachedQuestion (putFails sampleQuestion)
                     "AP Biology" "Unit 1" emptyWorld).2) = Some doc /\
     docData doc = sampleQuestion /\
     bucket (getCachedQuestion (putFails sampleQuestion)
               "AP Biology" "Unit 1" emptyWorld).2 = bucket emptyWorld) /\
  (upsertOk (putFails sampleQuestion) = false ->
   (getCachedQuestion (putFails sampleQuestion) "AP Biology" "Unit 1" emptyWorld).1
     = inl (DatabaseError "findOneAndUpdate failed")).
Proof.
  apply (C3_refused_put_is_swallowed_on_cold_miss
           (putFails sampleQuestion) "AP Biology" "Unit 1" sampleQuestion emptyWorld);
    reflexivity.
Defined.

(** ** A call run to completion is one schedule of the tasks *)

Lemma step_resume_last t o w ts rs :
  step (Resume (length ts) o) (mkSystem w (ts ++ [t]) rs)
  = Some (resume t o w ts rs).
Proof.
  cbn [step tasks world replies].
  rewrite list_lookup_middle by done.
  replace (delete (length ts) (ts ++ [t])) with ts; [done |].
  by rewrite delete_middle, app_nil_r.
Qed.

Lemma run_app l1 l2 s :
  run (l1 ++ l2) s = match run l1 s with Some s' => run l2 s' | None => None end.
Proof.
  revert s. induction l1 as [| a l1 IH]; intros s; cbn; [done |].
  destruct (step a s); [apply IH | done].
Qed.

Lemma step_call_get request className unit o w ts rs :
  step (CallGetCachedQuestion request className unit o) (mkSystem w ts rs)
  = Some (if connectOk o
          then mkSystem w (ts ++ [AwaitFind request className unit]) rs
          else settle (Foreground request) (inl (DatabaseError "connection failed"))
                      w ts rs).
Proof. cbn. by destruct (connectOk o). Qed.

Lemma step_run_immediate className unit rest w ts rs :
  immediates w = (className, unit) :: rest ->
  step RunImmediate (mkSystem w ts rs)
  = Some (mkSystem (setImmediates rest w)
                   (ts ++ [AwaitProvider Background className unit]) rs).
Proof. intros H. cbn. by rewrite H. Qed.

#[local] Arguments step : simpl never.

Lemma generateAndStoreQuestion_schedule owner o className unit w ts rs :
  connectOk o = true ->
  exists actions,
    run actions (mkSystem w (ts ++ [AwaitProvider owner className unit]) rs)
    = Some (settle owner (generateAndStoreQuestion o className unit w).1
                   (generateAndStoreQuestion o className unit w).2 ts rs).
Proof.
  intros Hc.
  unfold generateAndStoreQuestion, bind, ensureDbConnection, generateAPQuestion.
  rewrite Hc. cbn [ret fst snd].
  destruct (JS.falsy className) eqn:En.
  { exists [Resume (length ts) o]. cbn [run]. rewrite step_resume_last.
    cbn [resume]. by rewrite En. }
  destruct (provider o) as [q | message] eqn:Ep.
  2:{ exists [Resume (length ts) o]. cbn [run]. rewrite step_resume_last.
      cbn [resume]. by rewrite En, Ep. }
  destruct (upsertOk o) eqn:Eup.
  2:{ exists [Resume (length ts) o; Resume (length ts) o; Resume (length ts) o].
      cbn [run]. rewrite step_resume_last. cbn [resume]. rewrite En, Ep.
      rewrite step_resume_last. cbn [resume].
      destruct (putOk o) eqn:Eput; cbn;
        rewrite step_resume_last; cbn [resume]; by rewrite Eup. }
  destruct (updateFirst className unit q (questions w)) as [[d docs] |] eqn:Eu.
  - exists [Resume (length ts) o; Resume (length ts) o; Resume (length ts) o].
    cbn [run]. rewrite step_resume_last. cbn [resume]. rewrite En, Ep.
    rewrite step_resume_last. cbn [resume].
    destruct (putOk o) eqn:Eput; cbn;
      rewrite step_resume_last; cbn [resume]; rewrite Eup;
      unfold upsertUpdate, bind; cbn; by rewrite Eu.
  - exists [Resume (length ts) o; Resume (length ts) o; Resume (length ts) o;
            Resume (length ts) o].
    cbn [run]. rewrite step_resume_last. cbn [resume]. rewrite En, Ep.
    rewrite step_resume_last. cbn [resume].
    destruct (putOk o) eqn:Eput; cbn;
      rewrite step_resume_last; cbn [resume]; rewrite Eup;
      unfold upsertUpdate, bind; cbn; rewrite Eu;
      rewrite step_resume_last; cbn [resume]; by rewrite Eup.
Qed.

Lemma getCachedQuestion_schedule request o className unit s :
  exists actions,
    run actions s
    = Some (mkSystem (getCachedQuestion o className unit (world s)).2 (tasks s)
              (replies s ++ [(request, (getCachedQuestion o className unit (world s)).1)])).
Proof.
  destruct s as [w ts rs]. cbn [world tasks replies].
  destruct (connectOk o) eqn:Ec.
  2:{ exists [CallGetCachedQuestion request className unit o].
      cbn [run]. rewrite step_call_get, Ec.
      unfold getCachedQuestion, bind, ensureDbConnection. by rewrite Ec. }
  destruct (findOk o) eqn:Ef.
  2:{ exists [CallGetCachedQuestion request className unit o; Resume (length ts) o].
      cbn [run]. rewrite step_call_get, Ec, step_resume_last.
      unfold getCachedQuestion, bind, ensureDbConnection, findOne.
      cbn. by rewrite Ec, Ef. }
  destruct (List.find (matches className unit) (questions w)) as [doc |] eqn:Efind.
  - exists [CallGetCachedQuestion request className unit o; Resume (length ts) o].
    cbn [run]. rewrite step_call_get, Ec, step_resume_last.
    rewrite (getCachedQuestion_hit o className unit doc w Ec Ef Efind).
    cbn [resume]. unfold findOne. rewrite Ef. cbn. by rewrite Efind.
  - destruct (generateAndStoreQuestion_schedule (Foreground request) o className unit
                w ts rs Ec) as [actions Hrun].
    exists ([CallGetCachedQuestion request className unit o; Resume (length ts) o]
            ++ actions).
    rewrite run_app. cbn [run]. rewrite step_call_get, Ec, step_resume_last.
    cbn [resume]. unfold findOne. rewrite Ef. cbn.
    rewrite Efind, Hrun.
    by rewrite (getCachedQuestion_miss o className unit w Ec Ef Efind).
Qed.

Lemma runImmediate_schedule o s :
  connectOk o = true ->
  exists actions,
    run actions s = Some (mkSystem (runImmediate o (world s)).2 (tasks s) (replies s)).
Proof.
  intros Hc. destruct s as [w ts rs]. cbn [world tasks replies]. unfold runImmediate.
  destruct (immediates w) as [| [className unit] rest] eqn:Ei.
  { by exists []. }
  destruct (generateAndStoreQuestion_schedule Background o className unit
              (setImmediates rest w) ts rs Hc) as [actions Hrun].
  exists (RunImmediate :: actions). cbn [run].
  rewrite (step_run_immediate className unit rest w ts rs Ei), Hrun.
  unfold refreshQuestionBackground, tryCatch, bind.
  by destruct (generateAndStoreQuestion o className unit (setImmediates rest w))
    as [[e | sv] w'].
Qed.

(** Every successful fetch from a reachable world returns the id of a
    cache document, under which the bucket holds nothing. *)
Lemma served_id_has_no_blob o className unit s sv getOk :
  reachable s ->
  (getCachedQuestion o className unit (world s)).1 = inr sv ->
  (getQuestionFromS3 getOk (questionId sv)
     (getCachedQuestion o className unit (world s)).2).1
  = inl (NotFoundError "Question not found in S3").
Proof.
  intros [acts Hreach] Hsv.
  destruct (getCachedQuestion_schedule 0 o className unit s) as [actions Hrun].
  set (s' := mkSystem _ _ _) in Hrun.
  assert (Invariant s') as Hinv.
  { apply reachable_Invariant. exists (acts ++ actions). by rewrite run_app, Hreach. }
  destruct Hinv. cbn in *.
  destruct (inv_replies0 0 sv) as [_ [n Hn]].
  { apply elem_of_app. right. rewrite Hsv. by apply list_elem_of_singleton. }
  unfold getQuestionFromS3, tryCatch, getObjectStream, bind, get.
  destruct getOk; [| done]. rewrite Hn.
  destruct (bucket _ !! ObjectId n) as [b |] eqn:Eb; [| done].
  destruct (inv_ids0 (ObjectId n) (mk_is_Some _ _ Eb)) as (m & Hm & _). discriminate.
Qed.

(** ** The claims about the two stores *)

(** C1.  A cold fetch (and likewise a forced generate-and-store) on the
    empty system succeeds, writes the question to the bucket under the blob
    id [Uuid 0], and returns the id of the cache document, [ObjectId 0]; a get
    from the blob store on the returned id is rejected.  The same id is
    returned, and the same get rejected, when the blob write was refused. *)
Theorem C1_returned_id_is_not_the_blob_id :
  (getCachedQuestion (allOk sampleQuestion) "AP Biology" "Unit 1" emptyWorld).1
    = inr (mkServed sampleQuestion "openai" "gpt-5-mini" false (ObjectId 0)) /\
  bucket populatedWorld !! Uuid 0
    = Some (mkBlob sampleQuestion "AP Biology" "Unit 1") /\
  (getQuestionFromS3 true (ObjectId 0) populatedWorld).1
    = inl (NotFoundError "Question not found in S3") /\
  (generateAndStoreQuestion (allOk sampleQuestion) "AP Biology" "Unit 1" emptyWorld).1
    = inr (mkServed sampleQuestion "openai" "gpt-5-mini" false (ObjectId 0)) /\
  (getQuestionFromS3 true (ObjectId 0)
     (generateAndStoreQuestion (allOk sampleQuestion) "AP Biology" "Unit 1"
                               emptyWorld).2).1
    = inl (NotFoundError "Question not found in S3") /\
  (getCachedQuestion (putFails sampleQuestion) "AP Biology" "Unit 1" emptyWorld).1
    = inr (mkServed sampleQuestion "openai" "gpt-5-mini" false (ObjectId 0)) /\
  (getQuestionFromS3 true (ObjectId 0)
     (getCachedQuestion (putFails sampleQuestion) "AP Biology" "Unit 1"
                        emptyWorld).2).1
    = inl (NotFoundError "Question not found in S3").
Proof. repeat split; vm_compute; reflexivity. Qed.

Lemma elem_of_take_lookup {T} (x : T) i l :
  x ∈ take i l -> exists j, j < i /\ l !! j = Some x.
Proof. rewrite elem_of_take. intros [j [H1 H2]]. by exists j. Qed.

(** In every reachable state the bucket holds nothing under the id of a
    cache document. *)
Lemma cache_ids_are_not_blob_ids s d :
  reachable s -> d ∈ questions (world s) -> bucket (world s) !! doc_id d = None.
Proof.
  intros Hreach Hd. destruct (reachable_Invariant s Hreach).
  destruct (inv_docs0 d Hd) as [_ (n & Hn & _)]. rewrite Hn.
  destruct (bucket (world s) !! ObjectId n) as [b |] eqn:Eb; [| done].
  destruct (inv_ids0 (ObjectId n) (mk_is_Some _ _ Eb)) as (m & Hm & _). discriminate.
Qed.

(** C2, as the source has it.  In every reachable state, every cache write
    comes after an attempt to write the same question to the blob store: a
    write under a fresh id, or a refused write, which the generator swallows
    before the cache is written all the same.  A blob once written stays in
    the bucket under its id. *)
Theorem C2_blob_write_attempt_precedes_cache_write s :
  reachable s ->
  (forall i id c u q,
     effects (world s) !! i = Some (CacheWritten id c u q) ->
     exists j b, j < i /\ blobQuestion b = q /\
       (effects (world s) !! j = Some (BlobWriteFailed b) \/
        exists blobId, effects (world s) !! j = Some (BlobWritten blobId b))) /\
  (forall id b, BlobWritten id b ∈ effects (world s) ->
                bucket (world s) !! id = Some b).
Proof.
  intros Hreach. destruct (reachable_Invariant s Hreach).
  split; [| done].
  intros i id c u q Hi. destruct (inv_order0 i id c u q Hi) as (b & Hb & [H | [bid H]]).
  - destruct (elem_of_take_lookup _ _ _ H) as (j & Hj & Hl).
    exists j, b. repeat split; try done. by left.
  - destruct (elem_of_take_lookup _ _ _ H) as (j & Hj & Hl).
    exists j, b. repeat split; try done. right. by exists bid.
Qed.

Lemma afterPutRefused_reachable : reachable afterPutRefused.
Proof. exists coldFetchPutRefused. vm_compute. reflexivity. Qed.

Lemma afterTwoRefreshes_reachable : reachable afterTwoRefreshes.
Proof. exists twoRefreshesComplete. vm_compute. reflexivity. Qed.

Lemma C2_witness :
  (forall i id c u q,
     effects (world afterPutRefused) !! i = Some (CacheWritten id c u q) ->
     exists j b, j < i /\ blobQuestion b = q /\
       (effects (world afterPutRefused) !! j = Some (BlobWriteFailed b) \/
        exists blobId,
          effects (world afterPutRefused) !! j = Some (BlobWritten blobId b))) /\
  (forall id b, BlobWritten id b ∈ effects (world afterPutRefused) ->
                bucket (world afterPutRefused) !! id = Some b).
Proof.
  apply (C2_blob_write_attempt_precedes_cache_write afterPutRefused).
  apply afterPutRefused_reachable.
Defined.

(** C2, as stated, fails: after a cold fetch whose blob write is refused the
    cache holds the question and the bucket holds nothing at all. *)
Lemma C2_cache_entry_without_persisted_blob :
  exists s d,
    run coldFetchPutRefused initial = Some s /\
    questions (world s) = [d] /\ docData d = sampleQuestion /\
    forall id, bucket (world s) !! id = None.
Proof.
  eexists _, _. split; [vm_compute; reflexivity |].
  split; [reflexivity |]. split; [reflexivity |].
  intros id. reflexivity.
Qed.

(** C4, as stated, fails: after a cold fetch and two hits on the key, two
    background refreshes of the key are in flight. *)
Lemma C4_two_refreshes_of_one_key_in_flight :
  exists s,
    run coldFetchThenTwoHits initial = Some s /\
    refreshesInFlight "AP Biology" "Unit 1" s = 2.
Proof. eexists. split; vm_compute; reflexivity. Qed.

(** C4, as the source has it.  A fetch of a key that has a cache entry
    resolves at once with the stored entry marked as cached, and queues one
    refresh of the key, whatever is already queued or in flight: hits are not
    deduplicated. *)
Theorem C4_every_hit_queues_a_refresh o className unit doc w :
  findOk o = true ->
  List.find (matches className unit) (questions w) = Some doc ->
  (connectOk o = true ->
   getCachedQuestion o className unit w
   = (inr (serve doc), setImmediates (immediates w ++ [(className, unit)]) w)) /\
  cached (serve doc) = true /\
  (forall ts rs i request,
     ts !! i = Some (AwaitFind request className unit) ->
     step (Resume i o) (mkSystem w ts rs)
     = Some (mkSystem (setImmediates (immediates w ++ [(className, unit)]) w)
                      (delete i ts) (rs ++ [(request, inr (serve doc))]))).
Proof.
  intros Hf Hfind. split; [| split; [done |]].
  - intros Hc. by apply getCachedQuestion_hit.
  - intros ts rs i request Hi. unfold step. cbn [tasks world replies].
    rewrite Hi. cbn [resume]. unfold findOne. rewrite Hf. cbn. by rewrite Hfind.
Qed.

Lemma C4_witness :
  (connectOk (allOk otherQuestion) = true ->
   getCachedQuestion (allOk otherQuestion) "AP Biology" "Unit 1" populatedWorld
   = (inr (serve sampleDoc),
      setImmediates (immediates populatedWorld ++ [("AP Biology"%string, "Unit 1"%string)])
                    populatedWorld)) /\
  cached (serve sampleDoc) = true /\
  (forall ts rs i request,
     ts !! i = Some (AwaitFind request "AP Biology" "Unit 1") ->
     step (Resume i (allOk otherQuestion)) (mkSystem populatedWorld ts rs)
     = Some (mkSystem
               (setImmediates (immediates populatedWorld
                               ++ [("AP Biology"%string, "Unit 1"%string)])
                              populatedWorld)
               (delete i ts) (rs ++ [(request, inr (serve sampleDoc))]))).
Proof.
  apply (C4_every_hit_queues_a_refresh
           (allOk otherQuestion) "AP Biology" "Unit 1" sampleDoc populatedWorld);
    reflexivity.
Defined.

(** The event loop turns the oldest queued refresh into a running one. *)
Lemma runImmediate_starts_refresh className unit rest w ts rs s' :
  immediates w = (className, unit) :: rest ->
  step RunImmediate (mkSystem w ts rs) = Some s' ->
  refreshesInFlight className unit s'
  = S (refreshesInFlight className unit (mkSystem w ts rs)).
Proof.
  intros Hi. rewrite (step_run_immediate className unit rest w ts rs Hi).
  intros [= <-]. unfold refreshesInFlight. cbn [tasks].
  rewrite filter_app, length_app. cbn.
  rewrite decide_True; [cbn; lia |].
  by rewrite !bool_decide_eq_true_2.
Qed.

(** The first phase of an upsert never adds a document: when it matches,
    the collection has the same keys as before, in the same places. *)
Lemma upsertUpdate_keeps_keys className unit q w d :
  (upsertUpdate className unit q w).1 = inr (Some d) ->
  key <$> questions (upsertUpdate className unit q w).2 = key <$> questions w /\
  docData d = q /\
  forall x, x ∈ questions (upsertUpdate className unit q w).2 ->
            x = d \/ x ∈ questions w.
Proof.
  unfold upsertUpdate.
  destruct (updateFirst className unit q (questions w)) as [[d' docs] |] eqn:Eu;
    [| done].
  cbn. intros [= ->].
  destruct (updateFirst_Some _ _ _ _ _ _ Eu) as (d0 & Hf & -> & Hf' & Hk & Hin0 & Hall).
  split; [done |]. split; [apply docData_overwrite | done].
Qed.

(** C9.  Two fetches of one key without document that overlap leave two
    documents of the key: both find nothing, both upserts match nothing, and
    both insert; each request is answered with the id of its own document.
    What holds in every reachable state, whatever the interleaving, is that
    every document is written whole: its seven question fields are those of
    one question the provider returned, and so is every question served; and
    an upsert that matches a document changes that document only and adds
    none. *)
Theorem C9_overlapping_cold_fetches_leave_two_entries :
  (exists s d1 d2,
     run twoColdFetchesOverlap initial = Some s /\
     questions (world s) = [d1; d2] /\
     key d1 = key d2 /\
     docData d1 = sampleQuestion /\ docData d2 = otherQuestion /\
     ~ NoDup (key <$> questions (world s)) /\
     replies s
     = [(0, inr (mkServed sampleQuestion "openai" "gpt-5-mini" false (doc_id d1)));
        (1, inr (mkServed otherQuestion "openai" "gpt-5-mini" false (doc_id d2)))] /\
     doc_id d1 <> doc_id d2) /\
  (forall s, reachable s ->
     (forall d, d ∈ questions (world s) ->
        exists q, ProviderReturned q ∈ effects (world s) /\
          docQuestion d = question q /\
          docOptionA d = optionA q /\ docOptionB d = optionB q /\
          docOptionC d = optionC q /\ docOptionD d = optionD q /\
          docCorrectAnswer d = correctAnswer q /\
          docExplanation d = explanation q) /\
     (forall request sv, (request, inr sv) ∈ replies s ->
        ProviderReturned (answer sv) ∈ effects (world s)) /\
     (forall className unit q d,
        (upsertUpdate className unit q (world s)).1 = inr (Some d) ->
        key <$> questions (upsertUpdate className unit q (world s)).2
        = key <$> questions (world s) /\
        docData d = q)).
Proof.
  split.
  - eexists _, _, _. split; [vm_compute; reflexivity |].
    split; [reflexivity |]. split; [reflexivity |].
    split; [reflexivity |]. split; [reflexivity |].
    split; [| split; [reflexivity | discriminate]].
    cbn. intros Hnd. apply NoDup_cons in Hnd as [Hn _].
    apply Hn. apply list_elem_of_singleton. reflexivity.
  - intros s Hreach. destruct (reachable_Invariant s Hreach).
    split; [| split].
    + intros d Hd. exists (docData d). split; [by apply inv_docs0 | done].
    + intros request sv Hin. by apply (inv_replies0 request sv).
    + intros className unit q d Hd.
      destruct (upsertUpdate_keeps_keys className unit q (world s) d Hd)
        as (Hk & Hdata & _).
      done.
Qed.

(** Two refreshes of one key that overlap: the one that writes last wins,
    and the document is its question, whole, under the id of the first
    insert. *)
Lemma two_refreshes_last_write_wins :
  questions (world afterTwoRefreshes)
  = [overwrite "AP Biology" "Unit 1" otherQuestion sampleDoc] /\
  tasks afterTwoRefreshes = [] /\
  doc_id (overwrite "AP Biology" "Unit 1" otherQuestion sampleDoc) = ObjectId 0.
Proof. repeat split; vm_compute; reflexivity. Qed.

End CacheFacts.

(* ===================================================================== *)
(** * Properties of the rest of the services *)
(* ===================================================================== *)

Module JSArrayFacts.
Import JSArray.
Local Open Scope Z_scope.

Section Sort.
Context {T : Type} (score : T -> Z).

Lemma insertDesc_perm x l : insertDesc score x l ≡ₚ x :: l.
Proof.
  induction l as [| y l IH]; cbn; [done |].
  destruct (score x <? score y); [| done].
  rewrite IH. apply Permutation_swap.
Qed.

Lemma sortDesc_perm l : sortDesc score l ≡ₚ l.
Proof.
  induction l as [| x l IH]; cbn; [done |].
  by rewrite insertDesc_perm, IH.
Qed.

Lemma insertDesc_sorted x l :
  StronglySorted (descending score) l -> StronglySorted (descending score) (insertDesc score x l).
Proof.
  induction 1 as [| y l Hl IH Hy]; cbn.
  - repeat constructor.
  - destruct (score x <? score y) eqn:E.
    + apply Z.ltb_lt in E. constructor; [done |].
      rewrite insertDesc_perm. constructor; [unfold descending; lia | done].
    + apply Z.ltb_ge in E. constructor; [by constructor |].
      constructor; [done |].
      eapply Forall_impl; [done |]. unfold descending. intros z Hz. lia.
Qed.

Lemma sortDesc_sorted l : StronglySorted (descending score) (sortDesc score l).
Proof.
  induction l as [| x l IH]; cbn; [constructor | by apply insertDesc_sorted].
Qed.

Lemma insertDesc_same_score x l v :
  filter (fun y => score y = v) (insertDesc score x l)
  = filter (fun y => score y = v) (x :: l).
Proof.
  induction l as [| y l IH]; cbn; [done |].
  destruct (score x <? score y) eqn:E; [| done].
  apply Z.ltb_lt in E. rewrite !filter_cons in *.
  destruct (decide (score y = v)) as [Hy | Hy].
  - rewrite IH. destruct (decide (score x = v)); [lia | done].
  - rewrite IH. by destruct (decide (score x = v)).
Qed.

Lemma sortDesc_stable l v :
  filter (fun y => score y = v) (sortDesc score l)
  = filter (fun y => score y = v) l.
Proof.
  induction l as [| x l IH]; cbn; [done |].
  rewrite insertDesc_same_score, !filter_cons. by rewrite IH.
Qed.
End Sort.

Lemma slice_window {T} (offset limit : Z) (l : list T) :
  0 <= offset -> 0 <= limit ->
  slice (Some offset) (Some (offset + limit)) l
  = take (Z.to_nat limit) (drop (Z.to_nat offset) l).
Proof.
  intros Ho Hl. unfold slice, relativeIndex. cbn.
  destruct (offset <? 0) eqn:E1; [apply Z.ltb_lt in E1; lia |].
  destruct (offset + limit <? 0) eqn:E2; [apply Z.ltb_lt in E2; lia |].
  set (len := Z.of_nat (length l)).
  destruct (decide (offset <= len)) as [Hin | Hout].
  - rewrite (Z.min_l offset len) by lia.
    destruct (decide (offset + limit <= len)) as [Hin2 | Hout2].
    + rewrite Z.min_l by lia. f_equal. lia.
    + rewrite Z.min_r by lia.
      rewrite (take_ge _ (Z.to_nat limit)); [| rewrite length_drop; lia].
      apply take_ge. rewrite length_drop. lia.
  - rewrite !Z.min_r by lia.
    rewrite drop_ge by lia. rewrite drop_ge by lia. by rewrite !take_nil.
Qed.

End JSArrayFacts.

Module CacheAdminFacts.
Import Cache CacheAdmin.

Lemma count_pos_find {T} (f : T -> bool) l :
  (0 <? length (List.filter f l))%nat
  = match List.find f l with Some _ => true | None => false end.
Proof.
  induction l as [| x l IH]; cbn; [done |].
  destruct (f x); [done | apply IH].
Qed.

Lemma isCached_find className unit w :
  isCached true true className unit w
  = (inr match List.find (matches className unit) (questions w) with
         | Some _ => true
         | None => false
         end, w).
Proof.
  unfold isCached, bind, countDocuments, get, ensureDbConnection, ret.
  by rewrite count_pos_find.
Qed.

(** The generator leaves the collection and the queue alone. *)
Lemma generateAPQuestion_cache_untouched o className unit w :
  questions (generateAPQuestion o className unit w).2 = questions w /\
  immediates (generateAPQuestion o className unit w).2 = immediates w.
Proof.
  unfold generateAPQuestion. destruct (JS.falsy className); [done |].
  destruct (provider o); [| done]. by destruct (putOk o).
Qed.

Lemma updateFirst_other_keys className unit q docs d docs' c u :
  updateFirst className unit q docs = Some (d, docs') ->
  (c, u) <> (className, unit) ->
  List.find (matches c u) docs' = List.find (matches c u) docs.
Proof.
  intros Hup Hne. revert d docs' Hup.
  induction docs as [| e docs IH]; intros d docs'; cbn; [done |].
  destruct (matches className unit e) eqn:Em.
  - intros [= <- <-]. cbn.
    assert (matches c u (overwrite className unit q e) = false) as ->.
    { apply not_true_is_false. intros H. apply CacheFacts.matches_key in H.
      by destruct Hne. }
    assert (matches c u e = false) as ->; [| done].
    apply not_true_is_false. intros H. apply CacheFacts.matches_key in H.
    apply CacheFacts.matches_key in Em. destruct Hne. congruence.
  - destruct (updateFirst className unit q docs) as [[d' rest] |]; [| done].
    intros [= <- <-]. cbn. destruct (matches c u e); [done |]. by eapply IH.
Qed.

Lemma find_snoc_other {T} (f : T -> bool) l x :
  f x = false -> List.find f (l ++ [x]) = List.find f l.
Proof.
  intros Hx. induction l as [| y l IH]; cbn; [by rewrite Hx |].
  destruct (f y); [done | apply IH].
Qed.

(** What a successful upsert does to the collection. *)
Lemma findOneAndUpdate_resolved className unit q w d w' :
  findOneAndUpdate true className unit q w = (inr d, w') ->
  List.find (matches className unit) (questions w') = Some d /\
  docData d = q /\
  doc_id d = match List.find (matches className unit) (questions w) with
             | Some old => doc_id old
             | None => ObjectId (nextObjectId w)
             end /\
  (forall c u, (c, u) <> (className, unit) ->
     List.find (matches c u) (questions w') = List.find (matches c u) (questions w)) /\
  bucket w' = bucket w /\ immediates w' = immediates w.
Proof.
  rewrite CacheFacts.findOneAndUpdate_phases.
  destruct (updateFirst className unit q (questions w)) as [[d0 docs] |] eqn:Eu.
  - intros [= <- <-]. cbn.
    destruct (CacheFacts.updateFirst_Some _ _ _ _ _ _ Eu)
      as (old & Hf & -> & Hf' & Hk & Hin & Hall).
    rewrite Hf. repeat split; try done.
    + apply CacheFacts.docData_overwrite.
    + intros c u Hne. by eapply updateFirst_other_keys.
  - unfold upsertInsert. intros [= <- <-]. cbn.
    apply CacheFacts.updateFirst_None in Eu. rewrite Eu.
    repeat split; try done.
    + rewrite (CacheFacts.find_snoc_None _ _ _ Eu). cbn. unfold matches. cbn.
      by rewrite !bool_decide_eq_true_2.
    + apply CacheFacts.docData_overwrite.
    + intros c u Hne. apply find_snoc_other.
      apply not_true_is_false. intros H. apply CacheFacts.matches_key in H.
      by destruct Hne.
Qed.

Lemma generateAndStoreQuestion_resolved o className unit w sv w' :
  generateAndStoreQuestion o className unit w = (inr sv, w') ->
  exists g d,
    (generateAPQuestion o className unit w).1 = inr g /\
    findOneAndUpdate true className unit (genAnswer g)
                     (generateAPQuestion o className unit w).2 = (inr d, w') /\
    sv = mkServed (genAnswer g) (genProvider g) (genModel g) false (doc_id d).
Proof.
  unfold generateAndStoreQuestion, bind, ensureDbConnection.
  destruct (connectOk o); [| done]. cbn.
  destruct (generateAPQuestion o className unit w) as [[e | g] w1]; [done |].
  destruct (upsertOk o); [| done].
  destruct (findOneAndUpdate true className unit (genAnswer g) w1)
    as [[e | d] w2] eqn:Eu; [done |].
  intros [= <- <-]. by exists g, d.
Qed.

(** ** Grouping by class *)

Lemma sum_list_perm (l k : list nat) : l ≡ₚ k -> sum_list l = sum_list k.
Proof. induction 1; cbn; lia. Qed.

Lemma bumpGroup_sum c groups :
  sum_list (bumpGroup c groups).*2 = S (sum_list groups.*2).
Proof.
  induction groups as [| [c' n] groups IH]; cbn; [done |].
  destruct (bool_decide (c' = c)); cbn; [done | rewrite IH; lia].
Qed.

Lemma bumpGroup_keys c groups c' :
  c' ∈ (bumpGroup c groups).*1 <-> c' = c \/ c' ∈ groups.*1.
Proof.
  induction groups as [| [k n] groups IH]; cbn.
  - rewrite list_elem_of_singleton, elem_of_nil. tauto.
  - destruct (bool_decide (k = c)) eqn:E; cbn; rewrite !elem_of_cons.
    + apply bool_decide_eq_true in E as ->. tauto.
    + rewrite IH. tauto.
Qed.

Lemma bumpGroup_NoDup c groups :
  NoDup groups.*1 -> NoDup (bumpGroup c groups).*1.
Proof.
  induction groups as [| [k n] groups IH]; cbn; intros Hnd.
  - apply NoDup_singleton.
  - apply NoDup_cons in Hnd as [Hk Hnd].
    destruct (bool_decide (k = c)) eqn:E; cbn.
    + by apply NoDup_cons.
    + apply bool_decide_eq_false in E. apply NoDup_cons. split; [| by apply IH].
      rewrite bumpGroup_keys. intros [-> | H]; [done | by apply Hk].
Qed.

Lemma groupCount_bump_same c groups :
  groupCount c (bumpGroup c groups) = Some (S (default 0 (groupCount c groups))).
Proof.
  induction groups as [| [k n] groups IH]; cbn.
  - by rewrite bool_decide_eq_true_2.
  - destruct (bool_decide (k = c)) eqn:E; cbn; by rewrite E.
Qed.

Lemma groupCount_bump_other c c' groups :
  c' <> c -> groupCount c' (bumpGroup c groups) = groupCount c' groups.
Proof.
  intros Hne. induction groups as [| [k n] groups IH]; cbn.
  - by rewrite bool_decide_eq_false_2.
  - destruct (bool_decide (k = c)) eqn:E; cbn.
    + apply bool_decide_eq_true in E as ->. by rewrite !bool_decide_eq_false_2.
    + by rewrite IH.
Qed.

Lemma groupCount_elem c n groups :
  NoDup groups.*1 -> (c, n) ∈ groups <-> groupCount c groups = Some n.
Proof.
  induction groups as [| [k m] groups IH]; cbn; intros Hnd.
  - by rewrite elem_of_nil.
  - apply NoDup_cons in Hnd as [Hk Hnd]. rewrite elem_of_cons, (IH Hnd).
    destruct (bool_decide (k = c)) eqn:E.
    + apply bool_decide_eq_true in E as ->. split.
      * intros [[= ->] | H]; [done |]. destruct Hk.
        apply list_elem_of_fmap. exists (c, n). split; [done |]. by apply IH.
      * intros [= ->]. by left.
    + apply bool_decide_eq_false in E. split; [| by right].
      intros [[= -> ->] | H]; done.
Qed.

Lemma classCount_snoc c docs d :
  classCount c (docs ++ [d])
  = (classCount c docs + if bool_decide (docClass d = c) then 1 else 0)%nat.
Proof.
  unfold classCount. rewrite List.filter_app, length_app. cbn.
  by destruct (bool_decide (docClass d = c)).
Qed.

Lemma groupByClass_spec docs :
  NoDup (groupByClass docs).*1 /\
  sum_list (groupByClass docs).*2 = length docs /\
  forall c, groupCount c (groupByClass docs)
            = if classCount c docs is 0 then None else Some (classCount c docs).
Proof.
  unfold groupByClass.
  induction docs as [| d docs IH] using rev_ind; cbn.
  - split; [constructor |]. done.
  - rewrite foldl_app. cbn. destruct IH as (Hnd & Hsum & Hc).
    set (groups := foldl _ [] docs) in *.
    split; [by apply bumpGroup_NoDup |]. split.
    + rewrite bumpGroup_sum, length_app, Hsum. cbn. lia.
    + intros c. rewrite classCount_snoc.
      destruct (bool_decide (docClass d = c)) eqn:E.
      * apply bool_decide_eq_true in E as <-.
        rewrite groupCount_bump_same, Hc.
        destruct (classCount (docClass d) docs); cbn; [done |].
        by rewrite Nat.add_1_r.
      * apply bool_decide_eq_false in E.
        rewrite groupCount_bump_other, Hc, Nat.add_0_r by done. done.
Qed.

Lemma StronglySorted_weaken {T} (R S : T -> T -> Prop) l :
  (forall a b, R a b -> S a b) -> StronglySorted R l -> StronglySorted S l.
Proof.
  intros HRS. induction 1 as [| x l Hl IH Hx]; constructor; [done |].
  eapply Forall_impl; [done |]. intros y. apply HRS.
Qed.

Lemma filter_true_length {T} (l : list T) :
  length (List.filter (fun _ => true) l) = length l.
Proof. induction l as [| x l IH]; cbn; [done | by rewrite IH]. Qed.

(** The statistics of the cache agree with its contents: the total is the
    number of documents, the per-class counts add up to it, every class that
    has documents is listed once with their number, and the list is in
    decreasing order of count. *)
Theorem getCacheStats_agrees_with_collection w :
  exists stats,
    getCacheStats true true true w = (inr stats, w) /\
    total stats = length (questions w) /\
    sum_list (byClass stats).*2 = total stats /\
    NoDup (byClass stats).*1 /\
    StronglySorted (fun a b => b.2 <= a.2) (byClass stats) /\
    forall c n, (c, n) ∈ byClass stats <->
                n = classCount c (questions w) /\ 0 < n.
Proof.
  destruct (groupByClass_spec (questions w)) as (Hnd & Hsum & Hc).
  set (score := fun g : string * nat => Z.of_nat g.2).
  pose proof (JSArrayFacts.sortDesc_perm score (groupByClass (questions w))) as Hperm.
  exists (mkStats (length (questions w))
                  (JSArray.sortDesc score (groupByClass (questions w)))).
  split.
  { unfold getCacheStats, bind, ensureDbConnection, countDocuments,
      aggregateByClass, get, ret.
    by rewrite filter_true_length. }
  cbn [total byClass]. split; [done |]. split; [| split; [| split]].
  - rewrite <- Hsum. apply sum_list_perm. by rewrite Hperm.
  - by rewrite Hperm.
  - eapply StronglySorted_weaken; [| apply (JSArrayFacts.sortDesc_sorted score)].
    unfold JSArray.descending, score. intros a b. lia.
  - intros c n. rewrite Hperm, (groupCount_elem c n _ Hnd), Hc.
    destruct (classCount c (questions w)); split; try done.
    + intros [-> H]. lia.
    + intros [= <-]. split; [done | lia].
    + by intros [-> _].
Qed.

(** ** Store, lookup and clear *)

(** After a successful generate-and-store the key is cached, no other key
    has changed state, and a fetch of the key is served from the cache with
    the question and the id the store returned. *)
Theorem stored_question_is_cached_and_served o className unit w sv w' :
  generateAndStoreQuestion o className unit w = (inr sv, w') ->
  (isCached true true className unit w').1 = inr true /\
  (forall c u, (c, u) <> (className, unit) ->
     (isCached true true c u w').1 = (isCached true true c u w).1) /\
  (forall o', connectOk o' = true -> findOk o' = true ->
     (getCachedQuestion o' className unit w').1
     = inr (mkServed (answer sv) "cache" "cached" true (questionId sv))).
Proof.
  intros Hs. destruct (generateAndStoreQuestion_resolved _ _ _ _ _ _ Hs)
    as (g & d & Hg & Hu & ->).
  destruct (findOneAndUpdate_resolved _ _ _ _ _ _ Hu)
    as (Hfind & Hdata & Hid & Hother & Hb & Hi).
  destruct (generateAPQuestion_cache_untouched o className unit w) as [Hq _].
  split; [| split].
  - rewrite isCached_find. cbn [fst]. by rewrite Hfind.
  - intros c u Hne. rewrite !isCached_find. cbn [fst].
    by rewrite (Hother c u Hne), Hq.
  - intros o' Hc Hf.
    rewrite (CacheFacts.getCachedQuestion_hit o' className unit d w' Hc Hf Hfind).
    cbn. unfold serve. by rewrite Hdata.
Qed.

Lemma stored_question_witness :
  (isCached true true "AP Biology" "Unit 1" populatedWorld).1 = inr true /\
  (forall c u, (c, u) <> ("AP Biology"%string, "Unit 1"%string) ->
     (isCached true true c u populatedWorld).1
     = (isCached true true c u emptyWorld).1) /\
  (forall o', connectOk o' = true -> findOk o' = true ->
     (getCachedQuestion o' "AP Biology" "Unit 1" populatedWorld).1
     = inr (mkServed sampleQuestion "cache" "cached" true (ObjectId 0))).
Proof.
  apply (stored_question_is_cached_and_served
           (allOk sampleQuestion) "AP Biology" "Unit 1" emptyWorld
           (mkServed sampleQuestion "openai" "gpt-5-mini" false (ObjectId 0))
           populatedWorld).
  vm_compute. reflexivity.
Defined.

(** A fetch that resolves reports [cached] exactly when the key was cached
    before the call. *)
Theorem fetch_reports_cached_iff_isCached o className unit w sv :
  (getCachedQuestion o className unit w).1 = inr sv ->
  (isCached true true className unit w).1 = inr (cached sv).
Proof.
  rewrite isCached_find. cbn [fst].
  unfold getCachedQuestion, bind, ensureDbConnection, findOne.
  destruct (connectOk o) eqn:Ec; [| done]. cbn.
  destruct (findOk o); [| done]. cbn.
  destruct (List.find (matches className unit) (questions w)) as [doc |]; cbn.
  - by intros [= <-].
  - destruct (generateAndStoreQuestion o className unit w) as [[e | sv'] w'] eqn:Es;
      [done |]. cbn. intros [= ->].
    destruct (generateAndStoreQuestion_resolved _ _ _ _ _ _ Es) as (g & d & _ & _ & ->).
    done.
Qed.

Lemma fetch_reports_cached_witness :
  (isCached true true "AP Biology" "Unit 1" populatedWorld).1
  = inr (cached (serve sampleDoc)).
Proof.
  apply (fetch_reports_cached_iff_isCached (allOk otherQuestion)).
  reflexivity.
Defined.

(** [clearCache] resolves exactly when the connection and the delete go
    through.  It then reports how many documents there were; afterwards no
    key is cached and every fetch is a cold one, while the blobs stay where
    they are.  When it rejects, nothing has changed. *)
Theorem clearCache_forgets_every_key connect ok w :
  (connect = true -> ok = true ->
   (clearCache connect ok w).1 = inr (length (questions w))) /\
  (forall n, (clearCache connect ok w).1 = inr n ->
     connect = true /\ ok = true /\ n = length (questions w) /\
     bucket (clearCache connect ok w).2 = bucket w /\
     (forall c u,
        (isCached true true c u (clearCache connect ok w).2).1 = inr false) /\
     (forall o c u, connectOk o = true -> findOk o = true ->
        getCachedQuestion o c u (clearCache connect ok w).2
        = generateAndStoreQuestion o c u (clearCache connect ok w).2)) /\
  (forall e, (clearCache connect ok w).1 = inl e ->
     (clearCache connect ok w).2 = w).
Proof.
  split; [by intros -> -> |]. split.
  - destruct connect, ok; try done.
    change (clearCache true true w)
      with (inr (length (questions w)) : Error + nat, setQuestions [] w).
    cbn [fst snd]. intros n [= <-].
    split; [done |]. split; [done |]. split; [done |]. split; [done |]. split.
    + intros c u. by rewrite isCached_find.
    + intros o c u Hc Hf. by apply CacheFacts.getCachedQuestion_miss.
  - by destruct connect, ok.
Qed.

(** ** Background refresh *)

Lemma refresh_world o className unit w :
  (refreshQuestionBackground o className unit w).2
  = (generateAndStoreQuestion o className unit w).2 /\
  (refreshQuestionBackground o className unit w).1 = inr ().
Proof.
  unfold refreshQuestionBackground, tryCatch, bind.
  by destruct (generateAndStoreQuestion o className unit w) as [[e | sv] w'].
Qed.

Lemma generateAndStoreQuestion_rejected o className unit w e :
  (generateAndStoreQuestion o className unit w).1 = inl e ->
  questions (generateAndStoreQuestion o className unit w).2 = questions w.
Proof.
  unfold generateAndStoreQuestion, bind, ensureDbConnection.
  destruct (connectOk o); [| done]. cbn.
  pose proof (generateAPQuestion_cache_untouched o className unit w) as [Hq _].
  destruct (generateAPQuestion o className unit w) as [[e' | g] w1]; [done |].
  destruct (upsertOk o); [| done].
  rewrite CacheFacts.findOneAndUpdate_phases. unfold upsertInsert.
  by destruct (updateFirst className unit (genAnswer g) (questions w1))
    as [[d docs] |].
Qed.

(** A background refresh of a cached key never rejects.  When the
    regeneration fails the collection is as before, so the old question
    stays; when it succeeds the document of the key keeps its id and carries
    the new question, which the next fetch serves under the old id. *)
Theorem refresh_keeps_id_and_replaces_question o className unit old w :
  List.find (matches className unit) (questions w) = Some old ->
  (refreshQuestionBackground o className unit w).1 = inr () /\
  (forall e, (generateAndStoreQuestion o className unit w).1 = inl e ->
     questions (refreshQuestionBackground o className unit w).2 = questions w) /\
  (forall sv, (generateAndStoreQuestion o className unit w).1 = inr sv ->
     questionId sv = doc_id old /\
     forall o', connectOk o' = true -> findOk o' = true ->
       (getCachedQuestion o' className unit
          (refreshQuestionBackground o className unit w).2).1
       = inr (mkServed (answer sv) "cache" "cached" true (doc_id old))).
Proof.
  intros Hold. destruct (refresh_world o className unit w) as [Hw Hr].
  split; [done |]. rewrite Hw. split.
  - intros e He. by eapply generateAndStoreQuestion_rejected.
  - intros sv Hsv.
    destruct (generateAndStoreQuestion o className unit w) as [r w'] eqn:Es.
    cbn in Hsv. subst r.
    destruct (generateAndStoreQuestion_resolved _ _ _ _ _ _ Es)
      as (g & d & Hg & Hu & ->).
    destruct (findOneAndUpdate_resolved _ _ _ _ _ _ Hu)
      as (Hfind & Hdata & Hid & _).
    destruct (generateAPQuestion_cache_untouched o className unit w) as [Hq _].
    rewrite Hq, Hold in Hid. cbn. split; [done |].
    intros o' Hc Hf.
    rewrite (CacheFacts.getCachedQuestion_hit o' className unit d w' Hc Hf Hfind).
    cbn. unfold serve. by rewrite Hdata, Hid.
Qed.

Lemma refresh_witness :
  (refreshQuestionBackground (allOk otherQuestion) "AP Biology" "Unit 1"
                             populatedWorld).1 = inr () /\
  (forall e,
     (generateAndStoreQuestion (allOk otherQuestion) "AP Biology" "Unit 1"
                               populatedWorld).1 = inl e ->
     questions (refreshQuestionBackground (allOk otherQuestion) "AP Biology"
                  "Unit 1" populatedWorld).2 = questions populatedWorld) /\
  (forall sv,
     (generateAndStoreQuestion (allOk otherQuestion) "AP Biology" "Unit 1"
                               populatedWorld).1 = inr sv ->
     questionId sv = doc_id sampleDoc /\
     forall o', connectOk o' = true -> findOk o' = true ->
       (getCachedQuestion o' "AP Biology" "Unit 1"
          (refreshQuestionBackground (allOk otherQuestion) "AP Biology" "Unit 1"
                                     populatedWorld).2).1
       = inr (mkServed (answer sv) "cache" "cached" true (doc_id sampleDoc))).
Proof.
  apply (refresh_keeps_id_and_replaces_question
           (allOk otherQuestion) "AP Biology" "Unit 1" sampleDoc populatedWorld).
  reflexivity.
Defined.

(** ** The generator called directly (the skipCache path) *)

(** When [generateAPQuestion] resolves, the collection is untouched; if it
    returns a question id, the blob store returns under that id the question
    with its class and its unit (or "General"), and if it returns none, the
    blob write was refused and the bucket is as before. *)
Theorem generated_question_round_trip o className unit w g :
  (generateAPQuestion o className unit w).1 = inr g ->
  questions (generateAPQuestion o className unit w).2 = questions w /\
  match genQuestionId g with
  | Some id =>
      putOk o = true /\
      (getQuestionFromS3 true id (generateAPQuestion o className unit w).2).1
      = inr (mkBlob (genAnswer g) className
                    (if JS.falsy unit then "General"%string else unit))
  | None =>
      putOk o = false /\
      bucket (generateAPQuestion o className unit w).2 = bucket w
  end.
Proof.
  intros Hg. split; [apply generateAPQuestion_cache_untouched |].
  revert Hg. unfold generateAPQuestion.
  destruct (JS.falsy className); [done |].
  destruct (provider o) as [q | m]; [| done].
  destruct (putOk o); cbn; intros [= <-]; cbn; [| done].
  split; [done |].
  unfold getQuestionFromS3, tryCatch, getObjectStream, bind, get. cbn.
  by rewrite lookup_insert_eq.
Qed.

Lemma generated_question_witness :
  questions (generateAPQuestion (allOk sampleQuestion) "AP Biology" "" emptyWorld).2
  = questions emptyWorld /\
  match genQuestionId
          (mkGenerated sampleQuestion "openai" "gpt-5-mini" (Some (Uuid 0))) with
  | Some id =>
      putOk (allOk sampleQuestion) = true /\
      (getQuestionFromS3 true id
         (generateAPQuestion (allOk sampleQuestion) "AP Biology" "" emptyWorld).2).1
      = inr (mkBlob
               (genAnswer (mkGenerated sampleQuestion "openai" "gpt-5-mini"
                                       (Some (Uuid 0))))
               "AP Biology" (if JS.falsy "" then "General"%string else ""%string))
  | None =>
      putOk (allOk sampleQuestion) = false /\
      bucket (generateAPQuestion (allOk sampleQuestion) "AP Biology" "" emptyWorld).2
      = bucket emptyWorld
  end.
Proof.
  apply (generated_question_round_trip (allOk sampleQuestion) "AP Biology" ""
           emptyWorld
           (mkGenerated sampleQuestion "openai" "gpt-5-mini" (Some (Uuid 0)))).
  reflexivity.
Defined.

(** [generateAPQuestion] rejects only with a generation error, and then it
    has changed nothing: a refused blob write never rejects it. *)
Theorem generateAPQuestion_rejects_only_on_generation o className unit w e :
  (generateAPQuestion o className unit w).1 = inl e ->
  (exists message, e = GenerationError message) /\
  (generateAPQuestion o className unit w).2 = w /\
  (JS.falsy className = true \/ exists message, provider o = Failed message).
Proof.
  unfold generateAPQuestion.
  destruct (JS.falsy className).
  { cbn. intros [= <-]. split; [by eexists |]. split; [done | by left]. }
  destruct (provider o) as [q | m].
  - by destruct (putOk o).
  - cbn. intros [= <-]. split; [by eexists |]. split; [done |]. right. by eexists.
Qed.

Lemma generateAPQuestion_rejects_witness :
  (exists message, GenerationError "provider error" = GenerationError message) /\
  (generateAPQuestion providerFails "AP Biology" "Unit 1" emptyWorld).2 = emptyWorld /\
  (JS.falsy "AP Biology" = true \/
   exists message, provider providerFails = Failed message).
Proof.
  apply (generateAPQuestion_rejects_only_on_generation
           providerFails "AP Biology" "Unit 1" emptyWorld
           (GenerationError "provider error")).
  reflexivity.
Defined.

End CacheAdminFacts.


Module StorageFacts.
Import Cache Storage.
Local Open Scope string_scope.

(** ** Batch get *)

Lemma getQuestionFromS3_spec ok id w :
  getQuestionFromS3 ok id w
  = (match (if ok then bucket w !! id else None) with
     | Some body => inr body
     | None => inl (NotFoundError "Question not found in S3")
     end, w).
Proof.
  unfold getQuestionFromS3, tryCatch, getObjectStream.
  destruct ok; [| done].
  unfold bind, get. by destruct (bucket w !! id).
Qed.

Lemma collectQuestions_sublist ok i ids w :
  collectQuestions ok i ids w `sublist_of` omap (fun id => bucket w !! id) ids.
Proof.
  revert i. induction ids as [| id ids IH]; intros i; cbn [collectQuestions omap].
  { constructor. }
  rewrite getQuestionFromS3_spec. cbn [list_omap].
  destruct (ok i), (bucket w !! id) as [b |]; cbn.
  - constructor. apply IH.
  - apply IH.
  - constructor. apply IH.
  - apply IH.
Qed.

Lemma collectQuestions_all_ok ok i ids w :
  (forall j, i <= j < i + length ids -> ok j = true) ->
  collectQuestions ok i ids w = omap (fun id => bucket w !! id) ids.
Proof.
  revert i. induction ids as [| id ids IH]; intros i Hok; [done |].
  cbn [collectQuestions]. rewrite getQuestionFromS3_spec.
  rewrite (Hok i) by (cbn; lia).
  rewrite IH by (intros j Hj; apply Hok; cbn; lia).
  cbn. by destruct (bucket w !! id).
Qed.

Lemma omap_length_le {A B} (f : A -> option B) (l : list A) :
  length (omap f l) <= length l.
Proof.
  induction l as [| x l IH]; cbn; [done |].
  destruct (f x); cbn; lia.
Qed.

(** [getQuestionsFromS3] never rejects and changes nothing.  What it
    resolves to is, in the order of the request, a selection of the blobs
    stored under the requested ids: ids that have no blob, or whose get
    failed, are left out without a trace, so the result can be shorter than
    the request and tells no position.  When every get goes through it is
    exactly the stored blobs of the ids that have one. *)
Theorem getQuestionsFromS3_selects_stored_blobs ok ids w :
  exists blobs,
    getQuestionsFromS3 ok ids w = (inr blobs, w) /\
    blobs `sublist_of` omap (fun id => bucket w !! id) ids /\
    length blobs <= length ids /\
    (forall b, b ∈ blobs -> exists id, id ∈ ids /\ bucket w !! id = Some b) /\
    ((forall j, j < length ids -> ok j = true) ->
     blobs = omap (fun id => bucket w !! id) ids).
Proof.
  exists (collectQuestions ok 0 ids w).
  pose proof (collectQuestions_sublist ok 0 ids w) as Hsub.
  split; [done |]. split; [done |]. split; [| split].
  - etrans; [apply sublist_length, Hsub |]. apply omap_length_le.
  - intros b Hb. eapply elem_of_sublist in Hb; [| exact Hsub].
    apply list_elem_of_omap in Hb as (id & Hid & Hb). eauto.
  - intros Hok. apply collectQuestions_all_ok. intros j Hj. apply Hok. lia.
Qed.

(** ** GET /api/question/:id *)

(** The route answers 200 with the blob exactly when the get went through and
    the bucket holds a blob under the id; every failure of the get, a missing
    object or a refused request alike, is a 404 with the same details. *)
Theorem questionById_answers ok id w :
  questionById ok (Some id) w
  = match (if ok then bucket w !! id else None) with
    | Some question => ByIdOk question
    | None => ByIdNotFound "Question not found" "Question not found in S3"
    end.
Proof.
  unfold questionById. rewrite getQuestionFromS3_spec.
  by destruct (if ok then bucket w !! id else None).
Qed.

(** ** Listing *)

Lemma stripPrefix_app p s : stripPrefix p (p +:+ s) = Some s.
Proof.
  induction p as [| a p IH]; [by destruct s |].
  change (String a p +:+ s) with (String a (p +:+ s)).
  cbn [stripPrefix]. by rewrite bool_decide_eq_true_2.
Qed.

Lemma spanNot_run c u rest :
  free c u = true -> spanNot c (u +:+ String c rest) = (u, String c rest).
Proof.
  induction u as [| a u IH].
  { intros _. change ("" +:+ String c rest) with (String c rest).
    cbn [spanNot]. by rewrite bool_decide_eq_true_2. }
  change (String a u +:+ String c rest) with (String a (u +:+ String c rest)).
  cbn [free spanNot].
  intros [Ha Hu]%andb_prop. apply negb_true_iff in Ha. rewrite Ha.
  by rewrite IH.
Qed.

Lemma spanNot_free c s : free c (spanNot c s).1 = true.
Proof.
  induction s as [| a s IH]; cbn; [done |].
  destruct (bool_decide (a = c)) eqn:E; [done |].
  destruct (spanNot c s) as [run tail]. cbn in *. by rewrite E, IH.
Qed.

Lemma matchHere_key userId questionId :
  userId <> "" -> free "/" userId = true ->
  questionId <> "" -> free "." questionId = true ->
  matchHere (userQuestionKey userId questionId) = Some questionId.
Proof.
  intros Hu Hfu Hq Hfq. unfold matchHere, userQuestionKey.
  rewrite stripPrefix_app. cbn [mbind option_bind].
  change ("/" +:+ (questionId +:+ ".json"))
    with (String "/" (questionId +:+ ".json")).
  rewrite (spanNot_run "/" userId _ Hfu).
  rewrite bool_decide_eq_false_2 by done.
  change (stripPrefix "/" (String "/" (questionId +:+ ".json")))
    with (stripPrefix "" (questionId +:+ ".json")).
  replace (stripPrefix "" (questionId +:+ ".json"))
    with (Some (questionId +:+ ".json")) by (by destruct (questionId +:+ ".json")).
  cbn [mbind option_bind].
  change (questionId +:+ ".json") with (questionId +:+ String "." "json").
  rewrite (spanNot_run "." questionId _ Hfq).
  by rewrite bool_decide_eq_false_2 by done.
Qed.

Lemma matchKey_here s capture :
  matchHere s = Some capture -> matchKey s = Some capture.
Proof. intros H. destruct s; cbn [matchKey]; by rewrite H. Qed.

Lemma matchHere_capture s capture :
  matchHere s = Some capture -> capture <> "" /\ free "." capture = true.
Proof.
  unfold matchHere.
  destruct (stripPrefix "questions/users/" s) as [s1 |]; [| done].
  cbn [mbind option_bind].
  destruct (spanNot "/" s1) as [user s2].
  case_bool_decide; [done |].
  destruct (stripPrefix "/" s2) as [s3 |]; [| done].
  cbn [mbind option_bind].
  pose proof (spanNot_free "." s3) as Hfree.
  destruct (spanNot "." s3) as [cap s4].
  case_bool_decide; [done |].
  destruct (stripPrefix ".json" s4); [| done].
  cbn. by intros [= <-].
Qed.

Lemma matchKey_capture s capture :
  matchKey s = Some capture -> capture <> "" /\ free "." capture = true.
Proof.
  induction s as [| a s IH]; cbn [matchKey].
  - destruct (matchHere "") eqn:E; [| done].
    intros [= <-]. by eapply matchHere_capture.
  - destruct (matchHere (String a s)) eqn:E.
    + intros [= <-]. by eapply matchHere_capture.
    + apply IH.
Qed.

(** Listing the keys [questions/users/<userId>/<id>.json] of a user gives
    back the ids, in the order of the listing, provided the user id is not
    empty and has no [/] and every question id is not empty and has no
    [.]. *)
Theorem listUserQuestions_round_trip userId questionIds :
  userId <> "" -> free "/" userId = true ->
  Forall (fun id => id <> "" /\ free "." id = true) questionIds ->
  listUserQuestions (Some (map (userQuestionKey userId) questionIds))
  = questionIds.
Proof.
  intros Hu Hfu Hids. cbn [listUserQuestions].
  induction Hids as [| id ids [Hid Hfree] _ IH]; [done |].
  cbn [map omap list_omap].
  rewrite (matchKey_here _ id (matchHere_key userId id Hu Hfu Hid Hfree)).
  f_equal. exact IH.
Qed.

Lemma listUserQuestions_round_trip_witness :
  listUserQuestions
    (Some (map (userQuestionKey "64f0c2a1") ["q-1"; "drafts/q-2"]))
  = ["q-1"; "drafts/q-2"].
Proof.
  apply (listUserQuestions_round_trip "64f0c2a1" ["q-1"; "drafts/q-2"]).
  - done.
  - reflexivity.
  - repeat constructor; done.
Defined.

(** Whatever the store lists, and also when the listing fails, every id
    [listUserQuestions] returns is a non-empty string without [.]: a
    question stored under an id with a dot is never listed under its id. *)
Theorem listed_ids_have_no_dot listing id :
  id ∈ listUserQuestions listing -> id <> "" /\ free "." id = true.
Proof.
  destruct listing as [keys |]; cbn [listUserQuestions].
  - intros (key & _ & Hm)%list_elem_of_omap. by eapply matchKey_capture.
  - by intros ?%elem_of_nil.
Qed.

Lemma listed_ids_have_no_dot_witness :
  "q-1" <> "" /\ free "." "q-1" = true.
Proof.
  apply (listed_ids_have_no_dot
           (Some ["questions/users/64f0c2a1/q-1.json"; "questions/other.json"])
           "q-1").
  vm_compute. left.
Defined.

End StorageFacts.


Module RateLimitFacts.
Import Cache RateLimit.
Local Open Scope Z_scope.

Lemma check_other now ip ip' limits :
  ip <> ip' -> (checkOpenAIRateLimit now ip limits).2 !! ip' = limits !! ip'.
Proof.
  intros Hne. unfold checkOpenAIRateLimit.
  destruct (limits !! ip) as [l |]; cbn [snd].
  - destruct (resetTime l <? now); cbn [snd]; [by rewrite lookup_insert_ne |].
    destruct (OPENAI_RATE_LIMIT <=? count l); cbn [snd]; [done |].
    by rewrite lookup_insert_ne.
  - by rewrite lookup_insert_ne.
Qed.

Lemma check_own now ip limits limits' :
  limits !! ip = limits' !! ip ->
  (checkOpenAIRateLimit now ip limits).1 = (checkOpenAIRateLimit now ip limits').1 /\
  (checkOpenAIRateLimit now ip limits).2 !! ip
  = (checkOpenAIRateLimit now ip limits').2 !! ip.
Proof.
  intros Heq. unfold checkOpenAIRateLimit. rewrite <- Heq.
  destruct (limits !! ip) as [l |] eqn:E; cbn [fst snd].
  - destruct (resetTime l <? now); cbn [fst snd]; [by rewrite !lookup_insert_eq |].
    destruct (OPENAI_RATE_LIMIT <=? count l); cbn [fst snd].
    + by rewrite E, <- Heq.
    + by rewrite !lookup_insert_eq.
  - by rewrite !lookup_insert_eq.
Qed.

(** The requests of one client never change what another client is
    answered: a check for [ip'] gives the same answer and leaves the same
    entry for [ip'], whether or not a check for another [ip] came before. *)
Theorem checks_of_clients_are_independent now now' ip ip' limits :
  ip <> ip' ->
  (checkOpenAIRateLimit now' ip' (checkOpenAIRateLimit now ip limits).2).1
  = (checkOpenAIRateLimit now' ip' limits).1 /\
  (checkOpenAIRateLimit now' ip' (checkOpenAIRateLimit now ip limits).2).2 !! ip'
  = (checkOpenAIRateLimit now' ip' limits).2 !! ip'.
Proof. intros Hne. apply check_own. by apply check_other. Qed.

Lemma checks_of_clients_witness :
  (checkOpenAIRateLimit 2000 "10.0.0.2"
     (checkOpenAIRateLimit 1000 "10.0.0.1" ∅).2).1
  = (checkOpenAIRateLimit 2000 "10.0.0.2" ∅).1 /\
  (checkOpenAIRateLimit 2000 "10.0.0.2"
     (checkOpenAIRateLimit 1000 "10.0.0.1" ∅).2).2 !! "10.0.0.2"
  = (checkOpenAIRateLimit 2000 "10.0.0.2" ∅).2 !! "10.0.0.2".
Proof.
  apply (checks_of_clients_are_independent 1000 2000 "10.0.0.1" "10.0.0.2" ∅).
  done.
Defined.

(** ** The quota of a window *)

Lemma checks_in_window ip times limits n reset :
  limits !! ip = Some (mkLimit n reset) -> 1 <= n ->
  Forall (fun t => t <= reset) times ->
  forall k c, (checks ip times limits).1 !! k = Some c ->
    allowed c = bool_decide (n + Z.of_nat k < OPENAI_RATE_LIMIT) /\
    remaining c = Z.max (OPENAI_RATE_LIMIT - 1 - n - Z.of_nat k) 0.
Proof.
  intros Hl Hn Htimes. revert limits n Hl Hn.
  induction Htimes as [| t times Ht _ IH]; intros limits n Hl Hn k c; [done |].
  cbn [checks].
  destruct (checkOpenAIRateLimit t ip limits) as [c0 limits'] eqn:Ec.
  destruct (checks ip times limits') as [cs final] eqn:Ecs. cbn [fst].
  unfold checkOpenAIRateLimit in Ec. rewrite Hl in Ec. cbn [count resetTime] in Ec.
  assert ((reset <? t) = false) as Hnot by (apply Z.ltb_ge; lia).
  rewrite Hnot in Ec.
  unfold OPENAI_RATE_LIMIT in *.
  destruct (15 <=? n) eqn:Efull.
  - apply Z.leb_le in Efull. injection Ec as <- <-.
    destruct k as [| k]; cbn.
    + intros [= <-]. cbn. rewrite bool_decide_eq_false_2 by lia. split; [done | lia].
    + intros Hk. specialize (IH limits n Hl Hn k c).
      rewrite Ecs in IH. destruct (IH Hk) as [Ha Hr].
      rewrite Ha, Hr. split; [| lia].
      rewrite !bool_decide_eq_false_2 by lia. done.
  - apply Z.leb_gt in Efull. injection Ec as <- <-.
    destruct k as [| k]; cbn.
    + intros [= <-]. cbn. rewrite bool_decide_eq_true_2 by lia. split; [done | lia].
    + intros Hk.
      specialize (IH (<[ip := mkLimit (n + 1) reset]> limits) (n + 1)
                     (lookup_insert_eq _ _ _) ltac:(lia) k c).
      rewrite Ecs in IH. destruct (IH Hk) as [Ha Hr].
      rewrite Ha, Hr. split; [| lia].
      apply bool_decide_ext. lia.
Qed.

(** A client with no entry, or with an entry whose window is over, opens a
    window with its request at [start]; of the requests up to the end of the
    window, the first fifteen (the opening one included) are allowed, with 14,
    13, ..., 0 remaining, and every later one is refused. *)
Theorem fifteen_requests_per_window ip start times limits :
  (forall entry, limits !! ip = Some entry -> resetTime entry < start) ->
  Forall (fun t => t <= start + RATE_LIMIT_WINDOW) times ->
  forall k c, (checks ip (start :: times) limits).1 !! k = Some c ->
    allowed c = bool_decide (Z.of_nat k < OPENAI_RATE_LIMIT) /\
    remaining c = Z.max (OPENAI_RATE_LIMIT - 1 - Z.of_nat k) 0.
Proof.
  intros Hfresh Htimes k c. cbn [checks].
  destruct (checkOpenAIRateLimit start ip limits) as [c0 limits'] eqn:Ec.
  assert (c0 = mkCheck true (OPENAI_RATE_LIMIT - 1) None None /\
          limits' = <[ip := mkLimit 1 (start + RATE_LIMIT_WINDOW)]> limits)
    as [-> ->].
  { unfold checkOpenAIRateLimit in Ec.
    destruct (limits !! ip) as [entry |] eqn:El.
    - specialize (Hfresh entry eq_refl). apply Z.ltb_lt in Hfresh.
      rewrite Hfresh in Ec. by injection Ec as <- <-.
    - by injection Ec as <- <-. }
  pose proof (checks_in_window ip times
                (<[ip := mkLimit 1 (start + RATE_LIMIT_WINDOW)]> limits) 1
                (start + RATE_LIMIT_WINDOW)
                (lookup_insert_eq _ _ _) ltac:(lia) Htimes) as Hw.
  destruct (checks ip times _) as [cs final]. cbn [fst] in *.
  destruct k as [| k]; cbn.
  - intros [= <-]. cbn. done.
  - intros Hk. destruct (Hw k c Hk) as [Ha Hr]. rewrite Ha, Hr.
    split; [apply bool_decide_ext; lia | lia].
Qed.

Lemma fifteen_requests_witness :
  allowed (mkCheck false 0 (Some 59)
             (Some (limitMessage 59))) = bool_decide (Z.of_nat 15 < OPENAI_RATE_LIMIT) /\
  remaining (mkCheck false 0 (Some 59) (Some (limitMessage 59)))
  = Z.max (OPENAI_RATE_LIMIT - 1 - Z.of_nat 15) 0.
Proof.
  apply (fifteen_requests_per_window "10.0.0.1" 1000
           [1100; 1200; 1300; 1400; 1500; 1600; 1700; 1800; 1900; 2000;
            2100; 2200; 2300; 2400; 2500] ∅).
  - intros entry H. by rewrite lookup_empty in H.
  - repeat constructor; unfold RATE_LIMIT_WINDOW; lia.
  - vm_compute. reflexivity.
Defined.

(** ** Cleanup *)

Lemma cleanup_lookup now limits ip :
  cleanup now limits !! ip
  = match limits !! ip with
    | Some entry => if resetTime entry <? now then None else Some entry
    | None => None
    end.
Proof.
  unfold cleanup. destruct (limits !! ip) as [entry |] eqn:E.
  - destruct (resetTime entry <? now) eqn:Et.
    + apply Z.ltb_lt in Et. apply map_lookup_filter_None. right.
      intros x Hx. cbn. rewrite E in Hx. injection Hx as <-. lia.
    + apply Z.ltb_ge in Et. apply map_lookup_filter_Some. split; [done |].
      cbn. lia.
  - apply map_lookup_filter_None. by left.
Qed.

(** The periodic cleanup cannot be observed: provided the clock does not go
    back, a check after a cleanup gives the answer, and leaves the entry, it
    would have given and left without the cleanup. *)
Theorem cleanup_is_not_observable cleanupTime now ip limits :
  cleanupTime <= now ->
  (checkOpenAIRateLimit now ip (cleanup cleanupTime limits)).1
  = (checkOpenAIRateLimit now ip limits).1 /\
  (checkOpenAIRateLimit now ip (cleanup cleanupTime limits)).2 !! ip
  = (checkOpenAIRateLimit now ip limits).2 !! ip.
Proof.
  intros Hclock. unfold checkOpenAIRateLimit. rewrite cleanup_lookup.
  destruct (limits !! ip) as [entry |] eqn:E; cbn [fst snd].
  - destruct (resetTime entry <? cleanupTime) eqn:Et.
    + apply Z.ltb_lt in Et.
      assert ((resetTime entry <? now) = true) as -> by (apply Z.ltb_lt; lia).
      cbn [fst snd]. by rewrite !lookup_insert_eq.
    + destruct (resetTime entry <? now); cbn [fst snd];
        [by rewrite !lookup_insert_eq |].
      destruct (OPENAI_RATE_LIMIT <=? count entry); cbn [fst snd].
      * rewrite cleanup_lookup, E, Et. done.
      * by rewrite !lookup_insert_eq.
  - by rewrite !lookup_insert_eq.
Qed.

Lemma cleanup_witness :
  (checkOpenAIRateLimit 400000 "10.0.0.1"
     (cleanup 300000 {[ "10.0.0.1"%string := mkLimit 15 61000 ]})).1
  = (checkOpenAIRateLimit 400000 "10.0.0.1"
       {[ "10.0.0.1"%string := mkLimit 15 61000 ]}).1 /\
  (checkOpenAIRateLimit 400000 "10.0.0.1"
     (cleanup 300000 {[ "10.0.0.1"%string := mkLimit 15 61000 ]})).2 !! "10.0.0.1"
  = (checkOpenAIRateLimit 400000 "10.0.0.1"
       {[ "10.0.0.1"%string := mkLimit 15 61000 ]}).2 !! "10.0.0.1".
Proof.
  apply (cleanup_is_not_observable 300000 400000 "10.0.0.1"
           {[ "10.0.0.1"%string := mkLimit 15 61000 ]}).
  lia.
Defined.

(** ** What the limiter maintains *)

Lemma limitsOk_empty clock : limitsOk clock ∅.
Proof. apply map_Forall_empty. Qed.

Lemma limitsOk_insert clock limits ip entry :
  limitsOk clock limits ->
  1 <= count entry <= OPENAI_RATE_LIMIT ->
  resetTime entry <= clock + RATE_LIMIT_WINDOW ->
  limitsOk clock (<[ip := entry]> limits).
Proof. intros Hok Hc Hr. by apply map_Forall_insert_2. Qed.

Lemma limitsOk_later clock now limits :
  clock <= now -> limitsOk clock limits -> limitsOk now limits.
Proof.
  intros Hle Hok ip entry Hl. destruct (Hok ip entry Hl) as [Hc Hr].
  split; [done | lia].
Qed.

Lemma limitsOk_cleanup clock now limits :
  limitsOk clock limits -> limitsOk clock (cleanup now limits).
Proof.
  intros Hok ip entry Hl. apply map_lookup_filter_Some in Hl as [Hl _].
  by apply (Hok ip).
Qed.

Lemma resetIn_bounds d :
  0 <= d <= RATE_LIMIT_WINDOW ->
  0 <= Math_ceil (Float64.fdiv (inject_Z d) 1000) <= 60.
Proof.
  unfold RATE_LIMIT_WINDOW. intros Hd.
  assert (0 <= inject_Z d / 1000 /\ inject_Z d / 1000 <= inject_Z 60)%Q
    as [H0 H60].
  { assert (inject_Z 0 <= inject_Z d)%Q as Ha by (rewrite <- Zle_Qle; lia).
    assert (inject_Z d <= inject_Z 60000)%Q as Hb by (rewrite <- Zle_Qle; lia).
    change (inject_Z 0) with 0%Q in Ha.
    change (inject_Z 60000) with 60000%Q in Hb.
    change (inject_Z 60) with 60%Q.
    split.
    - apply Qle_shift_div_l; [done | lra].
    - apply Qle_shift_div_r; [done | lra]. }
  pose proof (Float64Facts.fl_nonneg _ H0) as Hf0.
  pose proof (Float64Facts.fl_le_int _ 60 H0 H60 ltac:(lia)) as Hf60.
  unfold Math_ceil, Float64.fdiv. split.
  - change 0 with (Qceiling 0). by apply Qceiling_resp_le.
  - change 60 with (Qceiling (inject_Z 60)). by apply Qceiling_resp_le.
Qed.

(** The state of the limiter stays well formed as long as the clock does
    not go back: every entry counts between 1 and 15 requests and its window
    ends at most a minute ahead.  An allowed check reports what is left of
    the quota of the entry; a refusal changes nothing and tells to wait
    between 0 and 60 seconds. *)
Theorem limiter_stays_well_formed clock now ip limits :
  limitsOk clock limits -> clock <= now ->
  let c := (checkOpenAIRateLimit now ip limits).1 in
  let limits' := (checkOpenAIRateLimit now ip limits).2 in
  limitsOk now limits' /\
  0 <= remaining c <= OPENAI_RATE_LIMIT - 1 /\
  (allowed c = true ->
     resetIn c = None /\ message c = None /\
     exists entry, limits' !! ip = Some entry /\
                   remaining c = OPENAI_RATE_LIMIT - count entry) /\
  (allowed c = false ->
     limits' = limits /\ remaining c = 0 /\
     exists seconds, resetIn c = Some seconds /\
                     message c = Some (limitMessage seconds) /\
                     0 <= seconds <= 60).
Proof.
  intros Hok Hclock. pose proof (limitsOk_later _ _ _ Hclock Hok) as Hnow.
  unfold checkOpenAIRateLimit.
  assert (limitsOk now (<[ip := mkLimit 1 (now + RATE_LIMIT_WINDOW)]> limits))
    as Hreset.
  { apply limitsOk_insert; [done | unfold OPENAI_RATE_LIMIT; cbn; lia | cbn; lia]. }
  destruct (limits !! ip) as [entry |] eqn:El; cbn zeta.
  - destruct (Hok ip entry El) as [Hc Hr].
    destruct (resetTime entry <? now) eqn:Et; cbn [fst snd allowed remaining resetIn message].
    + split; [done |]. split; [unfold OPENAI_RATE_LIMIT; lia |].
      split; [| done]. intros _. split; [done |]. split; [done |].
      eexists. rewrite lookup_insert_eq. split; [done |]. cbn.
      unfold OPENAI_RATE_LIMIT. lia.
    + apply Z.ltb_ge in Et.
      destruct (OPENAI_RATE_LIMIT <=? count entry) eqn:Ef;
        cbn [fst snd allowed remaining resetIn message].
      * split; [done |]. split; [unfold OPENAI_RATE_LIMIT; lia |].
        split; [done |]. intros _. split; [done |]. split; [done |].
        eexists. split; [done |]. split; [done |].
        apply resetIn_bounds. lia.
      * apply Z.leb_gt in Ef. split.
        { apply limitsOk_insert; [done | cbn; lia | cbn; lia]. }
        split; [cbn; unfold OPENAI_RATE_LIMIT in *; lia |].
        split; [| done]. intros _. split; [done |]. split; [done |].
        eexists. rewrite lookup_insert_eq. split; [done |]. done.
  - cbn [fst snd allowed remaining resetIn message].
    split; [done |]. split; [unfold OPENAI_RATE_LIMIT; lia |].
    split; [| done]. intros _. split; [done |]. split; [done |].
    eexists. rewrite lookup_insert_eq. split; [done |]. cbn.
    unfold OPENAI_RATE_LIMIT. lia.
Qed.

Lemma limiter_witness :
  let c := (checkOpenAIRateLimit 30000 "10.0.0.1"
              {[ "10.0.0.1"%string := mkLimit 15 60500 ]}).1 in
  let limits' := (checkOpenAIRateLimit 30000 "10.0.0.1"
                    {[ "10.0.0.1"%string := mkLimit 15 60500 ]}).2 in
  limitsOk 30000 limits' /\
  0 <= remaining c <= OPENAI_RATE_LIMIT - 1 /\
  (allowed c = true ->
     resetIn c = None /\ message c = None /\
     exists entry, limits' !! "10.0.0.1" = Some entry /\
                   remaining c = OPENAI_RATE_LIMIT - count entry) /\
  (allowed c = false ->
     limits' = {[ "10.0.0.1"%string := mkLimit 15 60500 ]} /\ remaining c = 0 /\
     exists seconds, resetIn c = Some seconds /\
                     message c = Some (limitMessage seconds) /\
                     0 <= seconds <= 60).
Proof.
  apply (limiter_stays_well_formed 500 30000 "10.0.0.1"
           {[ "10.0.0.1"%string := mkLimit 15 60500 ]}).
  - apply map_Forall_singleton. unfold OPENAI_RATE_LIMIT, RATE_LIMIT_WINDOW.
    cbn. lia.
  - lia.
Defined.

(** ** POST /api/question *)

Lemma limiter_refusal now ip limits :
  allowed (checkOpenAIRateLimit now ip limits).1 = false ->
  (checkOpenAIRateLimit now ip limits).2 = limits /\
  exists seconds,
    message (checkOpenAIRateLimit now ip limits).1 = Some (limitMessage seconds) /\
    resetIn (checkOpenAIRateLimit now ip limits).1 = Some seconds.
Proof.
  unfold checkOpenAIRateLimit.
  destruct (limits !! ip) as [entry |]; [| done].
  destruct (resetTime entry <? now); [done |].
  destruct (OPENAI_RATE_LIMIT <=? count entry); [| done].
  intros _. split; [done |]. by eexists.
Qed.

Lemma limiter_allowed_entry now ip limits :
  allowed (checkOpenAIRateLimit now ip limits).1 = true ->
  exists entry,
    (checkOpenAIRateLimit now ip limits).2 !! ip = Some entry /\
    remaining (checkOpenAIRateLimit now ip limits).1
    = OPENAI_RATE_LIMIT - count entry.
Proof.
  unfold checkOpenAIRateLimit.
  destruct (limits !! ip) as [entry |].
  - destruct (resetTime entry <? now).
    + intros _. eexists. cbn [fst snd]. by rewrite lookup_insert_eq.
    + destruct (OPENAI_RATE_LIMIT <=? count entry); [done |].
      intros _. eexists. cbn [fst snd]. by rewrite lookup_insert_eq.
  - intros _. eexists. cbn [fst snd]. by rewrite lookup_insert_eq.
Qed.

(** A request without class name is answered 400 before the limiter is
    consulted, and a request with a class name is answered 429, with the
    message and the seconds of the limiter, exactly when the limiter refuses
    it.  Neither answer changes the limiter, the cache collection or the
    bucket, and neither reaches the provider. *)
Theorem rejected_requests_change_nothing production o now headerNow req limits w :
  let result := postQuestion production o now headerNow req limits w in
  let check := (checkOpenAIRateLimit now (clientIp req) limits).1 in
  (JS.falsy (className req) = true ->
     result = (BadRequest "className is required", limits, w)) /\
  (JS.falsy (className req) = false -> allowed check = false ->
     exists seconds,
       resetIn check = Some seconds /\
       result = (TooManyRequests "Rate limit exceeded" (limitMessage seconds)
                                 seconds "openai", limits, w)) /\
  (forall error, result.1.1 = BadRequest error ->
     JS.falsy (className req) = true) /\
  (forall error details seconds provider,
     result.1.1 = TooManyRequests error details seconds provider ->
     JS.falsy (className req) = false /\ allowed check = false).
Proof.
  cbv zeta. unfold postQuestion.
  destruct (JS.falsy (className req)) eqn:Ec.
  { split; [done |]. split; [done |]. split; [done |]. intros; discriminate. }
  pose proof (limiter_refusal now (clientIp req) limits) as Hsame.
  destruct (checkOpenAIRateLimit now (clientIp req) limits) as [c limits'].
  cbn [fst snd] in *.
  destruct (allowed c) eqn:Ea; cbn [negb].
  - split; [done |]. split; [done |].
    destruct (skipCache req).
    + destruct (generateAPQuestion o (className req) (unit req) w) as [[e | g] w'];
        (split; intros; discriminate).
    + destruct (getCachedQuestion o (className req) (unit req) w) as [[e | s] w'];
        (split; intros; discriminate).
  - destruct (Hsame eq_refl) as (-> & seconds & Hm & Hr).
    split; [done |]. split.
    + intros _ _. exists seconds. split; [done |]. by rewrite Hm, Hr.
    + split; [intros; discriminate | done].
Qed.

Lemma rejected_requests_witness :
  exists seconds,
    resetIn (checkOpenAIRateLimit 30000
               (clientIp (mkRequest "AP Biology" "Unit 1" false "10.0.0.1" ""))
               {[ "10.0.0.1"%string := mkLimit 15 60500 ]}).1 = Some seconds /\
    postQuestion false (allOk sampleQuestion) 30000 30000
                 (mkRequest "AP Biology" "Unit 1" false "10.0.0.1" "")
                 {[ "10.0.0.1"%string := mkLimit 15 60500 ]} emptyWorld
    = (TooManyRequests "Rate limit exceeded" (limitMessage seconds) seconds
                       "openai",
       {[ "10.0.0.1"%string := mkLimit 15 60500 ]}, emptyWorld).
Proof.
  apply (rejected_requests_change_nothing false (allOk sampleQuestion) 30000 30000
           (mkRequest "AP Biology" "Unit 1" false "10.0.0.1" "")
           {[ "10.0.0.1"%string := mkLimit 15 60500 ]} emptyWorld);
    reflexivity.
Defined.

(** For every answer other than 400 and 429 the request has been counted by
    the limiter, also when the generation failed and the answer is 500; in
    production the 500 never carries the message of the error. *)
Theorem failed_generation_counts_against_quota
    production o now headerNow req limits w headers error details provider :
  (postQuestion production o now headerNow req limits w).1.1
  = ServerError headers error details provider ->
  (postQuestion production o now headerNow req limits w).1.2
  = (checkOpenAIRateLimit now (clientIp req) limits).2 /\
  (exists entry,
     (postQuestion production o now headerNow req limits w).1.2 !! clientIp req
     = Some entry /\
     xRateLimitRemaining headers = OPENAI_RATE_LIMIT - count entry) /\
  (production = true -> details = "Internal server error"%string).
Proof.
  unfold postQuestion.
  destruct (JS.falsy (className req)); [done |].
  pose proof (limiter_allowed_entry now (clientIp req) limits) as Hentry.
  destruct (checkOpenAIRateLimit now (clientIp req) limits) as [c limits'].
  cbn [fst snd] in Hentry.
  destruct (allowed c) eqn:Ea; cbn [negb]; [| done].
  specialize (Hentry eq_refl).
  destruct (skipCache req).
  - destruct (generateAPQuestion o (className req) (unit req) w) as [[e | g] w'];
      cbn [fst snd]; [| done].
    intros [= <- _ <- _]. cbn [xRateLimitRemaining].
    split; [done |]. split; [done |]. by intros ->.
  - destruct (getCachedQuestion o (className req) (unit req) w) as [[e | s] w'];
      cbn [fst snd]; [| done].
    intros [= <- _ <- _]. cbn [xRateLimitRemaining].
    split; [done |]. split; [done |]. by intros ->.
Qed.

Lemma failed_generation_witness :
  (postQuestion true providerFails 1000 1000
     (mkRequest "AP Biology" "Unit 1" false "10.0.0.1" "") ∅ emptyWorld).1.2
  = (checkOpenAIRateLimit 1000
       (clientIp (mkRequest "AP Biology" "Unit 1" false "10.0.0.1" "")) ∅).2 /\
  (exists entry,
     (postQuestion true providerFails 1000 1000
        (mkRequest "AP Biology" "Unit 1" false "10.0.0.1" "") ∅ emptyWorld).1.2
       !! clientIp (mkRequest "AP Biology" "Unit 1" false "10.0.0.1" "")
     = Some entry /\
     xRateLimitRemaining (mkHeaders 15 14 61)
     = OPENAI_RATE_LIMIT - count entry) /\
  (true = true -> "Internal server error"%string = "Internal server error"%string).
Proof.
  apply (failed_generation_counts_against_quota true providerFails 1000 1000
           (mkRequest "AP Biology" "Unit 1" false "10.0.0.1" "") ∅ emptyWorld
           (mkHeaders 15 14 61) "Failed to generate question"
           "Internal server error" "openai").
  vm_compute. reflexivity.
Defined.

(** With [skipCache] the route goes around the cache: the collection and
    the queue of refreshes are as before, the answer has no [cached] field,
    and the id it carries, when it carries one, is the id under which the
    blob store returns the question of the answer. *)
Theorem skipCache_answer_is_retrievable
    production o now headerNow req limits w headers body :
  skipCache req = true ->
  (postQuestion production o now headerNow req limits w).1.1 = Ok headers body ->
  let w' := (postQuestion production o now headerNow req limits w).2 in
  questions w' = questions w /\
  immediates w' = immediates w /\
  resCached body = None /\
  match resQuestionId body with
  | Some id =>
      (getQuestionFromS3 true id w').1
      = inr (mkBlob (resAnswer body) (className req)
                    (if JS.falsy (unit req) then "General"%string else unit req))
  | None => bucket w' = bucket w
  end.
Proof.
  intros Hskip. unfold postQuestion. rewrite Hskip.
  destruct (JS.falsy (className req)) eqn:Ec; [done |].
  destruct (checkOpenAIRateLimit now (clientIp req) limits) as [c limits'].
  destruct (allowed c); cbn [negb]; [| done].
  unfold generateAPQuestion. rewrite Ec.
  destruct (provider o) as [q | m]; [| done].
  destruct (putOk o); cbn; intros [= _ <-]; cbn; [| done].
  split; [done |]. split; [done |]. split; [done |].
  unfold getQuestionFromS3, tryCatch, getObjectStream, bind, get. cbn.
  by rewrite lookup_insert_eq.
Qed.

Lemma skipCache_witness :
  let w' := (postQuestion false (allOk sampleQuestion) 1000 1000
               (mkRequest "AP Biology" "" true "" "") ∅ emptyWorld).2 in
  questions w' = questions emptyWorld /\
  immediates w' = immediates emptyWorld /\
  resCached (mkAnswer sampleQuestion "openai" "gpt-5-mini" None (Some (Uuid 0)))
  = None /\
  match resQuestionId
          (mkAnswer sampleQuestion "openai" "gpt-5-mini" None (Some (Uuid 0))) with
  | Some id =>
      (getQuestionFromS3 true id w').1
      = inr (mkBlob
               (resAnswer (mkAnswer sampleQuestion "openai" "gpt-5-mini" None
                                    (Some (Uuid 0))))
               (className (mkRequest "AP Biology" "" true "" ""))
               (if JS.falsy (unit (mkRequest "AP Biology" "" true "" ""))
                then "General"%string
                else unit (mkRequest "AP Biology" "" true "" "")))
  | None => bucket w' = bucket emptyWorld
  end.
Proof.
  apply (skipCache_answer_is_retrievable false (allOk sampleQuestion) 1000 1000
           (mkRequest "AP Biology" "" true "" "") ∅ emptyWorld
           (mkHeaders 15 14 61)
           (mkAnswer sampleQuestion "openai" "gpt-5-mini" None (Some (Uuid 0)))).
  - reflexivity.
  - vm_compute. reflexivity.
Defined.

End RateLimitFacts.


Module AccountFacts.
Import Ledger Account.
Local Open Scope Z_scope.

(** ** History pages *)

Lemma slice_NaN_end {T} (start : JSArray.IntOrNaN) (l : list T) :
  JSArray.slice start None l = [].
Proof.
  unfold JSArray.slice, JSArray.relativeIndex. cbn [default].
  change (0 <? 0) with false. cbv beta iota.
  rewrite (Z.min_l 0) by lia.
  set (k := if default 0 start <? 0 then _ else _).
  assert (0 <= k) as Hk.
  { unfold k. destruct (default 0 start <? 0) eqn:E; [lia |].
    apply Z.ltb_ge in E. lia. }
  rewrite Z.max_r by lia. done.
Qed.

(** The pages of the history are windows of one arrangement of the whole
    history: the attempts by decreasing time, attempts of equal time in the
    order they were recorded.  For an offset and limits that are not
    negative, a page is the window at the offset, and a page joined with the
    page that starts where it ends is the page of both limits, so that paging
    through an unchanged history shows every attempt once.  A limit that does
    not parse gives an empty page. *)
Theorem history_pages_tile_the_sorted_history offset limit limit' history :
  0 <= offset -> 0 <= limit -> 0 <= limit' ->
  let sorted := JSArray.sortDesc attemptedAt history in
  sorted ≡ₚ history /\
  StronglySorted (JSArray.descending attemptedAt) sorted /\
  (forall time, filter (fun a => attemptedAt a = time) sorted
                = filter (fun a => attemptedAt a = time) history) /\
  historyPage (Some offset) (Some limit) history
  = take (Z.to_nat limit) (drop (Z.to_nat offset) sorted) /\
  historyPage (Some offset) (Some limit) history
    ++ historyPage (Some (offset + limit)) (Some limit') history
  = historyPage (Some offset) (Some (limit + limit')) history /\
  (Z.of_nat (historyTotal history) <= limit ->
   historyPage (Some 0) (Some limit) history = sorted) /\
  historyPage (Some offset) None history = [].
Proof.
  intros Ho Hl Hl' sorted.
  split; [apply JSArrayFacts.sortDesc_perm |].
  split; [apply JSArrayFacts.sortDesc_sorted |].
  split; [intros time; apply JSArrayFacts.sortDesc_stable |].
  assert (forall o l, 0 <= o -> 0 <= l ->
            historyPage (Some o) (Some l) history
            = take (Z.to_nat l) (drop (Z.to_nat o) sorted)) as Hpage.
  { intros o l Ho' Hl''. unfold historyPage. cbn [JSArray.addNumbers].
    by apply JSArrayFacts.slice_window. }
  split; [by apply Hpage |]. split; [| split].
  - rewrite !Hpage by lia.
    replace (Z.to_nat (offset + limit))
      with (Z.to_nat offset + Z.to_nat limit)%nat by lia.
    rewrite <- drop_drop, take_take_drop. f_equal. lia.
  - intros Htotal. rewrite Hpage by lia. cbn [Z.to_nat drop].
    apply take_ge. unfold historyTotal in Htotal.
    pose proof (Permutation_length
                  (JSArrayFacts.sortDesc_perm attemptedAt history)) as Hlen.
    fold sorted in Hlen. lia.
  - unfold historyPage. cbn [JSArray.addNumbers]. apply slice_NaN_end.
Qed.

Lemma history_pages_witness :
  let history :=
    [mkAttempt "q1" "AP Biology" "Unit 1" "A" true 0 10;
     mkAttempt "q2" "AP Biology" "Unit 1" "B" false 0 30;
     mkAttempt "q3" "AP Biology" "Unit 2" "C" true 0 20] in
  let sorted := JSArray.sortDesc attemptedAt history in
  sorted ≡ₚ history /\
  StronglySorted (JSArray.descending attemptedAt) sorted /\
  (forall time, filter (fun a => attemptedAt a = time) sorted
                = filter (fun a => attemptedAt a = time) history) /\
  historyPage (Some 1) (Some 1) history
  = take (Z.to_nat 1) (drop (Z.to_nat 1) sorted) /\
  historyPage (Some 1) (Some 1) history
    ++ historyPage (Some (1 + 1)) (Some 1) history
  = historyPage (Some 1) (Some (1 + 1)) history /\
  (Z.of_nat (historyTotal history) <= 1 ->
   historyPage (Some 0) (Some 1) history = sorted) /\
  historyPage (Some 1) None history = [].
Proof.
  apply (history_pages_tile_the_sorted_history 1 1 1); lia.
Defined.

(** ** Bookmarks *)

Lemma indexOf_None x l : indexOf x l = None <-> x ∉ l.
Proof.
  induction l as [| y l IH]; cbn.
  - split; [intros _; apply not_elem_of_nil | done].
  - rewrite not_elem_of_cons. case_bool_decide as Hy.
    + split; [done | intros [Hne _]; by destruct Hne].
    + destruct (indexOf x l); cbn.
      * split; [done |]. intros [_ Hn]. by apply IH in Hn.
      * split; [| done]. intros _. split; [done | by apply IH].
Qed.

Lemma indexOf_Some x l i :
  indexOf x l = Some i -> l !! i = Some x /\ x ∉ take i l.
Proof.
  revert i. induction l as [| y l IH]; intros i; cbn; [done |].
  case_bool_decide as Hy.
  - intros [= <-]. subst y. split; [done |]. cbn. apply not_elem_of_nil.
  - destruct (indexOf x l) as [j |]; cbn; [| done].
    intros [= <-]. destruct (IH j eq_refl) as [Hl Hn].
    split; [done |]. cbn. rewrite not_elem_of_cons. split; [congruence | done].
Qed.

Lemma toggle_spec questionId bookmarks :
  NoDup bookmarks ->
  NoDup (toggle questionId bookmarks) /\
  (questionId ∈ toggle questionId bookmarks <-> questionId ∉ bookmarks) /\
  (forall other, other <> questionId ->
     other ∈ toggle questionId bookmarks <-> other ∈ bookmarks).
Proof.
  intros Hnd. unfold toggle.
  destruct (indexOf questionId bookmarks) as [i |] eqn:Ei.
  - destruct (indexOf_Some _ _ _ Ei) as [Hl Hbefore].
    pose proof (take_drop_middle _ _ _ Hl) as Hmid.
    rewrite <- Hmid in Hnd.
    apply NoDup_app in Hnd as (Hnd1 & Hdisj & Hnd2).
    apply NoDup_cons in Hnd2 as [Hafter Hnd2].
    rewrite delete_take_drop.
    split; [| split].
    + apply NoDup_app. split; [done |]. split; [| done].
      intros x Hx Hx'. apply (Hdisj x Hx). by right.
    + rewrite elem_of_app. split.
      * intros [H | H]; [by destruct Hbefore | by destruct Hafter].
      * intros Hn. destruct Hn. by eapply list_elem_of_lookup_2.
    + intros other Hne.
      trans (other ∈ take i bookmarks ++ questionId :: drop (S i) bookmarks);
        [| by rewrite Hmid].
      rewrite !elem_of_app, elem_of_cons. intuition congruence.
  - apply indexOf_None in Ei. split; [| split].
    + apply NoDup_app. split; [done |]. split; [| apply NoDup_singleton].
      intros x Hx Hx'. apply list_elem_of_singleton in Hx'. by subst x.
    + rewrite elem_of_app, list_elem_of_singleton. intuition congruence.
    + intros other Hne. rewrite elem_of_app, list_elem_of_singleton. intuition congruence.
Qed.

(** A bookmark request that is answered with success toggles the question
    in the list of the user and nowhere else: the answer's [bookmarked] tells
    whether the question is in the list afterwards, the other bookmarks are
    kept, and a list without duplicates stays without duplicates. *)
Theorem bookmark_toggles_membership db userId questionId users message flag :
  (bookmark db userId questionId users).1 = Bookmarked message flag ->
  exists old new,
    users !! userId = Some old /\
    (bookmark db userId questionId users).2 = <[userId := new]> users /\
    (flag = true <-> questionId ∉ old) /\
    (flag = true -> new = old ++ [questionId]) /\
    (NoDup old ->
       NoDup new /\
       (flag = true <-> questionId ∈ new) /\
       (forall other, other <> questionId -> other ∈ new <-> other ∈ old)).
Proof.
  unfold bookmark.
  destruct (JS.falsy questionId); [done |].
  destruct (findOk db); cbn [negb]; [| done].
  destruct (users !! userId) as [old |] eqn:El; [| done].
  destruct (saveOk db); [| done].
  cbn [fst snd]. intros [= _ <-].
  exists old, (toggle questionId old).
  split; [done |]. split; [done |].
  rewrite bool_decide_eq_true, indexOf_None.
  split; [done |]. split.
  - intros Hn. apply indexOf_None in Hn. unfold toggle. by rewrite Hn.
  - intros Hnd. destruct (toggle_spec questionId old Hnd) as (H1 & H2 & H3).
    split; [done |]. split; [by rewrite H2 | done].
Qed.

Lemma bookmark_witness :
  exists old new,
    ({[ "u1"%string := ["q1"%string; "q2"%string] ]} : gmap string (list string))
      !! "u1"%string = Some old /\
    (bookmark (mkDb true true) "u1" "q1"
              {[ "u1"%string := ["q1"%string; "q2"%string] ]}).2
    = <["u1"%string := new]> {[ "u1"%string := ["q1"%string; "q2"%string] ]} /\
    (false = true <-> "q1"%string ∉ old) /\
    (false = true -> new = old ++ ["q1"%string]) /\
    (NoDup old ->
       NoDup new /\
       (false = true <-> "q1"%string ∈ new) /\
       (forall other, other <> "q1"%string -> other ∈ new <-> other ∈ old)).
Proof.
  apply (bookmark_toggles_membership (mkDb true true) "u1" "q1"
           {[ "u1"%string := ["q1"%string; "q2"%string] ]} "Bookmark removed" false).
  vm_compute. reflexivity.
Defined.

(** A bookmark request that is not answered with success leaves every list
    as it was, also when the save fails after the list was changed in
    memory. *)
Theorem failed_bookmark_changes_nothing db userId questionId users :
  (forall message flag,
     (bookmark db userId questionId users).1 <> Bookmarked message flag) ->
  (bookmark db userId questionId users).2 = users.
Proof.
  unfold bookmark.
  destruct (JS.falsy questionId); [done |].
  destruct (findOk db); cbn [negb]; [| done].
  destruct (users !! userId) as [old |]; [| done].
  destruct (saveOk db); [| done].
  cbn [fst snd]. intros H. by destruct (H _ _ eq_refl).
Qed.

Lemma failed_bookmark_witness :
  (bookmark (mkDb true false) "u1" "q3"
            {[ "u1"%string := ["q1"%string; "q2"%string] ]}).2
  = {[ "u1"%string := ["q1"%string; "q2"%string] ]}.
Proof.
  apply (failed_bookmark_changes_nothing (mkDb true false) "u1" "q3"
           {[ "u1"%string := ["q1"%string; "q2"%string] ]}).
  intros message flag. vm_compute. discriminate.
Defined.

(** ** Statistics *)



Lemma sumZ_perm {T} (f : T -> Z) l1 l2 : l1 ≡ₚ l2 -> sumZ f l1 = sumZ f l2.
Proof.
  unfold sumZ. induction 1 as [| x l1 l2 _ IH | x y l | l1 l2 l3 _ IH1 _ IH2];
    cbn; lia.
Qed.

Lemma sumZ_map {T U} (g : T -> U) (f : U -> Z) l :
  sumZ f (map g l) = sumZ (fun x => f (g x)) l.
Proof. unfold sumZ. induction l as [| x l IH]; cbn; [done | by rewrite IH]. Qed.


Lemma bumpSubject_spec q stats :
  Forall subjectOk stats ->
  Forall subjectOk (bumpSubject q stats) /\
  sumZ subjectTotal (bumpSubject q stats) = sumZ subjectTotal stats + 1 /\
  sumZ subjectCorrect (bumpSubject q stats)
  = sumZ subjectCorrect stats + (if wasCorrect q then 1 else 0) /\
  map subject (bumpSubject q stats)
  = map subject stats
    ++ (if bool_decide (attemptClass q ∈ map subject stats) then []
        else [attemptClass q]).
Proof.
  unfold sumZ.
  induction 1 as [| s stats Hs Hstats IH]; cbn [bumpSubject].
  - split; [| by destruct (wasCorrect q)].
    repeat constructor; cbn; destruct (wasCorrect q); lia.
  - destruct IH as (IH1 & IH2 & IH3 & IH4). destruct Hs as [Hs1 Hs2].
    destruct (decide (subject s = attemptClass q)) as [Hsub | Hsub];
      [rewrite (bool_decide_eq_true_2 (subject s = attemptClass q)) by done
      | rewrite (bool_decide_eq_false_2 (subject s = attemptClass q)) by done];
      cbn [foldr map].
    + split; [| split; [| split]].
      * constructor; [| done]. split; cbn; destruct (wasCorrect q); lia.
      * cbn. lia.
      * cbn. destruct (wasCorrect q); lia.
      * cbn. rewrite bool_decide_eq_true_2 by (rewrite Hsub; left).
        by rewrite app_nil_r.
    + split; [| split; [| split]].
      * by constructor.
      * lia.
      * lia.
      * rewrite IH4. cbn. f_equal.
        destruct (bool_decide (attemptClass q ∈ map subject stats)) eqn:E.
        -- apply bool_decide_eq_true in E.
           by rewrite bool_decide_eq_true_2 by (by right).
        -- apply bool_decide_eq_false in E.
           rewrite bool_decide_eq_false_2; [done |].
           rewrite elem_of_cons. intros [Heq | Hin]; [by destruct Hsub | done].
Qed.

Lemma subjectStats_spec history :
  Forall subjectOk (subjectStats history) /\
  sumZ subjectTotal (subjectStats history) = Z.of_nat (length history) /\
  sumZ subjectCorrect (subjectStats history)
  = Z.of_nat (length (filter (fun q => wasCorrect q = true) history)) /\
  NoDup (map subject (subjectStats history)) /\
  (forall name, name ∈ map subject (subjectStats history)
                <-> name ∈ map attemptClass history).
Proof.
  unfold subjectStats.
  induction history as [| q history IH] using rev_ind.
  { cbn. split; [constructor |]. split; [done |]. split; [done |].
    split; [constructor | done]. }
  destruct IH as (IH1 & IH2 & IH3 & IH4 & IH5).
  rewrite foldl_app. cbn [foldl].
  destruct (bumpSubject_spec q _ IH1) as (H1 & H2 & H3 & H4).
  split; [done |]. split; [| split; [| split]].
  - rewrite H2, IH2, length_app. cbn. lia.
  - rewrite H3, IH3, filter_app, length_app.
    rewrite filter_cons, filter_nil.
    destruct (wasCorrect q) eqn:Ec.
    + rewrite decide_True by done. cbn. lia.
    + rewrite decide_False by done. cbn. lia.
  - rewrite H4. case_bool_decide as Hin; [by rewrite app_nil_r |].
    apply NoDup_app. split; [done |]. split; [| apply NoDup_singleton].
    intros x Hx Hx'. apply list_elem_of_singleton in Hx'. by subst x.
  - intros name. rewrite H4, map_app, !elem_of_app, IH5. cbn [map].
    rewrite list_elem_of_singleton.
    case_bool_decide as Hin.
    + rewrite elem_of_nil. apply IH5 in Hin. intuition congruence.
    + rewrite list_elem_of_singleton. done.
Qed.

(** The counts of the statistics agree with each other for every history
    whose class names are ordinary keys of an object: the correct answers are
    among the questions, the accuracy is a percentage and 0 for an empty
    history, and the breakdown has one row for each class of the history,
    rows by decreasing total, whose totals and correct counts add up to the
    overall ones; the accuracy of every row is a percentage. *)
Theorem statistics_add_up history :
  Forall (fun q => ordinaryKey (attemptClass q) = true) history ->
  let o := overview history in
  let rows := subjectBreakdown history in
  0 <= correctAnswers o <= totalQuestions o /\
  0 <= accuracy o <= 100 /\
  (history = [] -> accuracy o = 0) /\
  sumZ rowTotal rows = totalQuestions o /\
  sumZ rowCorrect rows = correctAnswers o /\
  StronglySorted (JSArray.descending rowTotal) rows /\
  NoDup (map rowSubject rows) /\
  (forall name, name ∈ map rowSubject rows <-> name ∈ map attemptClass history) /\
  Forall (fun row => 1 <= rowTotal row /\ 0 <= rowCorrect row <= rowTotal row /\
                     0 <= rowAccuracy row <= 100) rows.
Proof.
  intros _ o rows.
  destruct (subjectStats_spec history) as (Hok & Htotal & Hcorrect & Hnd & Hin).
  pose proof (JSArrayFacts.sortDesc_perm rowTotal
                (map subjectRow (subjectStats history))) as Hperm.
  fold (subjectBreakdown history) in Hperm. fold rows in Hperm.
  pose proof (length_filter (fun q => wasCorrect q = true) history) as Hle.
  assert (0 <= correctAnswers o <= totalQuestions o) as Hrange.
  { unfold o, overview. cbn. lia. }
  split; [done |].
  split; [| split; [| split; [| split; [| split; [| split; [| split]]]]]].
  - unfold o, overview in *. cbn in *.
    destruct (0 <? Z.of_nat (length history)) eqn:E; [| lia].
    apply Z.ltb_lt in E. apply LedgerFacts.computeMastery_bounds; lia.
  - intros ->. done.
  - rewrite (sumZ_perm _ _ _ Hperm), sumZ_map. exact Htotal.
  - rewrite (sumZ_perm _ _ _ Hperm), sumZ_map. exact Hcorrect.
  - apply JSArrayFacts.sortDesc_sorted.
  - rewrite Hperm, map_map. exact Hnd.
  - intros name. rewrite Hperm, map_map. apply Hin.
  - rewrite Hperm. apply Forall_map.
    eapply Forall_impl; [exact Hok |].
    intros s [Hs1 Hs2]. cbn. split; [done |]. split; [done |].
    apply LedgerFacts.computeMastery_bounds; lia.
Qed.

Lemma statistics_witness :
  let history :=
    [mkAttempt "q1" "AP Biology" "Unit 1" "A" true 4000 10;
     mkAttempt "q2" "AP Chemistry" "Unit 3" "B" false 9000 30;
     mkAttempt "q3" "AP Biology" "Unit 2" "C" false 2000 20] in
  let o := overview history in
  let rows := subjectBreakdown history in
  0 <= correctAnswers o <= totalQuestions o /\
  0 <= accuracy o <= 100 /\
  (history = [] -> accuracy o = 0) /\
  sumZ rowTotal rows = totalQuestions o /\
  sumZ rowCorrect rows = correctAnswers o /\
  StronglySorted (JSArray.descending rowTotal) rows /\
  NoDup (map rowSubject rows) /\
  (forall name, name ∈ map rowSubject rows <-> name ∈ map attemptClass history) /\
  Forall (fun row => 1 <= rowTotal row /\ 0 <= rowCorrect row <= rowTotal row /\
                     0 <= rowAccuracy row <= 100) rows.
Proof.
  apply (statistics_add_up
           [mkAttempt "q1" "AP Biology" "Unit 1" "A" true 4000 10;
            mkAttempt "q2" "AP Chemistry" "Unit 3" "B" false 9000 30;
            mkAttempt "q3" "AP Biology" "Unit 2" "C" false 2000 20]).
  repeat constructor.
Defined.

(** ** The ledger and the statistics *)





End AccountFacts.
